(** * Modmail: extension modes, plugin manifests and the lockfile hash check

    A shallow embedding of
    - [modmail/utils/cogs.py]: [BitwiseAutoEnum], [BotModes], [ExtMetadata],
      [calc_mode];
    - [modmail/extensions/meta.py]: [EXT_METADATA];
    - the plugin manifest parser, discovery and name resolver of
      [modmail/addons] (not part of the sources at hand; modelled from the
      specification);
    - [scripts/export_requirements.py]: [check_hash]. *)

From Stdlib Require Import ZArith Lia.
From stdpp Require Import base list gmap strings sorting.

Open Scope Z_scope.

(** ** Python objects with named boolean attributes

    [getattr(obj, name, default)] only looks at the attributes an object
    carries; an object is modelled by its attribute dictionary, an
    association list searched from the front. *)
Module Cogs.

Definition pyobj := list (string * bool).

Fixpoint getattr (o : pyobj) (name : string) (default : bool) : bool :=
  match o with
  | [] => default
  | (k, v) :: o' => if String.eqb k name then v else getattr o' name default
  end.

(** Python's [x or y] on integers: [x] when it is truthy (non-zero). *)
Definition py_or (x y : Z) : Z := if Z.eqb x 0 then y else x.

(** [BitwiseAutoEnum._generate_next_value_]: [1 << count]. *)
Definition generate_next_value (name : string) (start : Z) (count : nat)
    (last_values : list Z) : Z :=
  Z.shiftl 1 (Z.of_nat count).

(** [enum.auto()] assigns member values in declaration order, passing the
    number of members declared so far as [count] and the values so far as
    [last_values]; the default [start] is 1. *)
Fixpoint auto_values (names : list string) (count : nat) (last_values : list Z)
    : list (string * Z) :=
  match names with
  | [] => []
  | n :: ns =>
      let v := generate_next_value n 1 count last_values in
      (n, v) :: auto_values ns (S count) (last_values ++ [v])
  end.

(** [class BotModes(BitwiseAutoEnum)]: production, develop, plugin_dev. *)
Definition BotModes : list (string * Z) :=
  auto_values ["production"; "develop"; "plugin_dev"] 0 [].

(** The [@dataclass ExtMetadata] with its three boolean fields, all
    defaulting to [False]. *)
Record ExtMetadata := {
  production : bool;
  develop : bool;
  plugin_dev : bool
}.

Definition ExtMetadata_default : ExtMetadata :=
  {| production := false; develop := false; plugin_dev := false |}.

(** The instance's attribute dictionary, in field declaration order. *)
Definition ext_obj (m : ExtMetadata) : pyobj :=
  [("production", production m); ("develop", develop m);
   ("plugin_dev", plugin_dev m)].

(** [calc_mode], line by line:
    mode = int(getattr(metadata, "production", False))
    mode += int(getattr(metadata, "develop", False) << 1) or 0
    mode = mode + (int(getattr(metadata, "plugin_dev", False)) << 2) *)
Definition calc_mode (metadata : pyobj) : Z :=
  let mode := Z.b2z (getattr metadata "production" false) in
  let mode := mode + py_or (Z.shiftl (Z.b2z (getattr metadata "develop" false)) 1) 0 in
  let mode := mode + Z.shiftl (Z.b2z (getattr metadata "plugin_dev" false)) 2 in
  mode.

(** [EXT_METADATA = ExtMetadata()] in [modmail/extensions/meta.py]. *)
Definition meta_EXT_METADATA : ExtMetadata := ExtMetadata_default.

(** Modelled from the spec: the extension loader (not among the sources),
    which loads an extension under the running mode when
    [mode_mask & extension_computed_mask != 0] (section 4.1). *)
Definition loads_under (bot_mode : Z) (metadata : pyobj) : bool :=
  negb (Z.eqb (Z.land bot_mode (calc_mode metadata)) 0).

End Cogs.

(** ** TOML documents

    The manifest parser relies on a standard TOML reader, a third-party
    collaborator. Values are modelled by [tval]; a document is its
    top-level table. [loads_subset] is a reader for the part of TOML that
    plugin manifests use (comments, blank lines, [[array-of-tables]]
    headers and [key = "basic string"] pairs); it refuses everything else,
    so it accepts no text a full TOML reader would reject. *)
Module Toml.

#[local] Set Warnings "-register-all".

Inductive tval :=
| TStr (s : string)
| TInt (z : Z)
| TBool (b : bool)
| TArr (l : list tval)
| TTable (kvs : list (string * tval)).

Definition table := list (string * tval).

Fixpoint table_get (t : table) (k : string) : option tval :=
  match t with
  | [] => None
  | (k', v) :: t' => if String.eqb k' k then Some v else table_get t' k
  end.

Fixpoint table_set (t : table) (k : string) (v : tval) : table :=
  match t with
  | [] => []
  | (k', v') :: t' =>
      if String.eqb k' k then (k', v) :: t' else (k', v') :: table_set t' k v
  end.

Definition chr (n : nat) : Ascii.ascii := Ascii.ascii_of_nat n.
Definition nl : string := String (chr 10) EmptyString.
Definition dq : string := String (chr 34) EmptyString.

Definition is_ws (c : Ascii.ascii) : bool :=
  Ascii.eqb c (chr 32) || Ascii.eqb c (chr 9) || Ascii.eqb c (chr 13).

Definition is_bare (c : Ascii.ascii) : bool :=
  let n := Ascii.nat_of_ascii c in
  (Nat.leb 65 n && Nat.leb n 90) || (Nat.leb 97 n && Nat.leb n 122)
  || (Nat.leb 48 n && Nat.leb n 57) || Nat.eqb n 95 || Nat.eqb n 45.

(** Characters allowed unescaped in a basic string (escapes are outside
    the subset). *)
Definition is_basic_char (c : Ascii.ascii) : bool :=
  let n := Ascii.nat_of_ascii c in
  (Nat.eqb n 9 || Nat.leb 32 n) && negb (Nat.eqb n 34) && negb (Nat.eqb n 92)
  && negb (Nat.eqb n 127).

Fixpoint split_on (c : Ascii.ascii) (s : list Ascii.ascii) : list (list Ascii.ascii) :=
  match s with
  | [] => [[]]
  | x :: r =>
      if Ascii.eqb x c then [] :: split_on c r
      else match split_on c r with
           | [] => [[x]]
           | l :: ls => (x :: l) :: ls
           end
  end.

Fixpoint span (p : Ascii.ascii -> bool) (s : list Ascii.ascii) : list Ascii.ascii * list Ascii.ascii :=
  match s with
  | x :: r => if p x then let '(a, b) := span p r in (x :: a, b) else ([], s)
  | [] => ([], [])
  end.

Fixpoint ltrim (s : list Ascii.ascii) : list Ascii.ascii :=
  match s with
  | x :: r => if is_ws x then ltrim r else s
  | [] => []
  end.

Definition trim (s : list Ascii.ascii) : list Ascii.ascii := rev (ltrim (rev (ltrim s))).

Inductive line := LBlank | LHeader (k : string) | LKV (k v : string).

Definition bare_key (s : list Ascii.ascii) : option string :=
  match s with
  | [] => None
  | _ => if forallb is_bare s then Some (String.string_of_list_ascii s) else None
  end.

Definition end_of_line (s : list Ascii.ascii) : bool :=
  match ltrim s with
  | [] => true
  | c :: _ => Ascii.eqb c (chr 35)
  end.

Definition parse_kv (s : list Ascii.ascii) : option line :=
  let '(k, rest) := span is_bare s in
  match bare_key k, ltrim rest with
  | Some key, e :: r =>
      if Ascii.eqb e (chr 61) then
        match ltrim r with
        | q :: body =>
            if Ascii.eqb q (chr 34) then
              let '(v, after) := span is_basic_char body in
              match after with
              | q' :: tl =>
                  if Ascii.eqb q' (chr 34) && end_of_line tl
                  then Some (LKV key (String.string_of_list_ascii v)) else None
              | [] => None
              end
            else None
        | [] => None
        end
      else None
  | _, _ => None
  end.

Definition parse_line (raw : list Ascii.ascii) : option line :=
  match trim raw with
  | [] => Some LBlank
  | c :: r =>
      if Ascii.eqb c (chr 35) then Some LBlank
      else if Ascii.eqb c (chr 91) then
        match r, rev r with
        | c2 :: _, e1 :: e2 :: inner_rev =>
            if Ascii.eqb c2 (chr 91) && Ascii.eqb e1 (chr 93) && Ascii.eqb e2 (chr 93)
            then match bare_key (trim (tail (rev inner_rev))) with
                 | Some k => Some (LHeader k)
                 | None => None
                 end
            else None
        | _, _ => None
        end
      else parse_kv (c :: r)
  end.

(** Reader state: the top-level table so far and the open
    array-of-tables header, if any. *)
Definition rstate := (table * option string)%type.

Definition step (st : rstate) (l : line) : option rstate :=
  let '(top, cur) := st in
  match l with
  | LBlank => Some st
  | LHeader h =>
      match table_get top h with
      | None => Some (top ++ [(h, TArr [TTable []])], Some h)
      | Some (TArr ts) => Some (table_set top h (TArr (ts ++ [TTable []])), Some h)
      | Some _ => None
      end
  | LKV k v =>
      match cur with
      | None =>
          match table_get top k with
          | None => Some (top ++ [(k, TStr v)], None)
          | Some _ => None
          end
      | Some h =>
          match table_get top h with
          | Some (TArr ts) =>
              match last ts with
              | Some (TTable kvs) =>
                  match table_get kvs k with
                  | None =>
                      Some (table_set top h
                              (TArr (removelast ts ++ [TTable (kvs ++ [(k, TStr v)])])), cur)
                  | Some _ => None
                  end
              | _ => None
              end
          | _ => None
          end
      end
  end.

Fixpoint run (st : rstate) (ls : list (list Ascii.ascii)) : option rstate :=
  match ls with
  | [] => Some st
  | raw :: ls' =>
      match parse_line raw with
      | Some l => match step st l with Some st' => run st' ls' | None => None end
      | None => None
      end
  end.

Definition loads_subset (text : string) : option table :=
  match run ([], None) (split_on (chr 10) (String.list_ascii_of_string text)) with
  | Some (top, _) => Some top
  | None => None
  end.

End Toml.

(** ** Plugin manifests, discovery and the name resolver

    Modelled from the spec: [modmail/addons/plugins.py]
    ([parse_plugin_toml_from_string], [find_plugins]) and
    [modmail/addons/models.py] ([Plugin], [Plugin.convert]) are not among
    the sources; only their test, [tests/modmail/addons/test_plugins.py],
    is. The definitions below follow sections 3, 4.2-4.4 and 7 of the
    specification. *)
Module Plugins.

Import Toml.

(** Modelled from the spec: [Plugin] of [modmail/addons/models.py], the
    PluginManifestEntry of section 3. *)
Record Plugin := mkPlugin {
  name : string;
  folder_name : string;
  description : string;
  min_bot_version : string
}.

Inductive result (E A : Type) := Ok (a : A) | Err (e : E).
Arguments Ok {E A} a.
Arguments Err {E A} e.

Definition rbind {E A B} (m : result E A) (k : A -> result E B) : result E B :=
  match m with Ok a => k a | Err e => Err e end.

Notation "x <-? m ;; k" := (rbind m (fun x => k))
  (at level 100, m at next level, right associativity).

(** Errors of the manifest parser (section 7). *)
Inductive manifest_error := ParseError | SchemaError (field : string).

(** Modelled from the spec: a required string field of a manifest entry;
    no defaults. *)
Definition req_str (kvs : table) (k : string) : result manifest_error string :=
  match table_get kvs k with
  | Some (TStr s) => Ok s
  | _ => Err (SchemaError k)
  end.

(** Modelled from the spec: an element of [plugins] converted field for
    field; the TOML key [folder] becomes [folder_name]. *)
Definition entry_of_tval (t : tval) : result manifest_error Plugin :=
  match t with
  | TTable kvs =>
      n <-? req_str kvs "name" ;;
      f <-? req_str kvs "folder" ;;
      d <-? req_str kvs "description" ;;
      v <-? req_str kvs "min_bot_version" ;;
      Ok (mkPlugin n f d v)
  | _ => Err (SchemaError "plugins")
  end.

Fixpoint entries_of (es : list tval) : result manifest_error (list Plugin) :=
  match es with
  | [] => Ok []
  | e :: es' => p <-? entry_of_tval e ;; ps <-? entries_of es' ;; Ok (p :: ps)
  end.

(** Modelled from the spec: [parse_plugin_toml_from_string] (section 4.2),
    over a TOML reader [loads] that returns the document's top-level table
    or fails. *)
Definition parse_plugin_toml_from_string (loads : string -> option table)
    (text : string) : result manifest_error (list Plugin) :=
  match loads text with
  | None => Err ParseError
  | Some doc =>
      match table_get doc "plugins" with
      | Some (TArr es) => entries_of es
      | _ => Err (SchemaError "plugins")
      end
  end.

(** [VALID_PLUGIN_TOML] of the test module. *)
Definition VALID_PLUGIN_TOML : string :=
  nl ++ "[[plugins]]" ++ nl
  ++ "name = " ++ dq ++ "Planet" ++ dq ++ nl
  ++ "folder = " ++ dq ++ "planet" ++ dq ++ nl
  ++ "description = " ++ dq ++ "Planet. Tells you which planet you are probably on." ++ dq ++ nl
  ++ "min_bot_version = " ++ dq ++ "v0.2.0" ++ dq ++ nl.

(** The same manifest without its [min_bot_version] line. *)
Definition NO_MIN_VERSION_TOML : string :=
  nl ++ "[[plugins]]" ++ nl
  ++ "name = " ++ dq ++ "Planet" ++ dq ++ nl
  ++ "folder = " ++ dq ++ "planet" ++ dq ++ nl
  ++ "description = " ++ dq ++ "Planet. Tells you which planet you are probably on." ++ dq ++ nl.

Abbreviation registry := (gmap string Plugin).

(** Errors of discovery (sections 4.3 and 7). *)
Inductive io_error := FileNotFoundError | PermissionError | OtherOSError.

Inductive read_result := Contents (text : string) | IOError (e : io_error).

Inductive find_error :=
| IOErrorAt (path : string) (e : io_error)
| ParseErrorAt (path : string)
| SchemaErrorAt (path : string) (field : string)
| DuplicatePluginError (plugin_name : string).

(** Modelled from the spec: merging a manifest's entries into the registry,
    keyed by name, failing fast on a name already present (the
    data-integrity invariant of section 3). *)
Fixpoint merge_entries (ps : list Plugin) (reg : registry)
    : result find_error registry :=
  match ps with
  | [] => Ok reg
  | p :: ps' =>
      match reg !! name p with
      | Some _ => Err (DuplicatePluginError (name p))
      | None => merge_entries ps' (<[name p := p]> reg)
      end
  end.

Section Discovery.

Variable loads : string -> option table.
(** Reading the manifest of a configured plugin location. *)
Variable read_manifest : string -> read_result.

(** Modelled from the spec: the scan of [find_plugins] (section 4.3). *)
Fixpoint find_from (locations : list string) (reg : registry)
    : result find_error registry :=
  match locations with
  | [] => Ok reg
  | loc :: rest =>
      match read_manifest loc with
      | IOError FileNotFoundError => find_from rest reg
      | IOError e => Err (IOErrorAt loc e)
      | Contents text =>
          match parse_plugin_toml_from_string loads text with
          | Err ParseError => Err (ParseErrorAt loc)
          | Err (SchemaError f) => Err (SchemaErrorAt loc f)
          | Ok ps =>
              match merge_entries ps reg with
              | Ok reg' => find_from rest reg'
              | Err e => Err e
              end
          end
      end
  end.

(** Modelled from the spec: [find_plugins()], the scan from an empty
    registry. *)
Definition find_plugins (locations : list string) : result find_error registry :=
  find_from locations ∅.

End Discovery.

(** A reader monad over the registry with explicit state passing, so that
    what a lookup does to the registry is visible. *)
Definition St (A : Type) := registry -> A * registry.
Definition st_ret {A} (a : A) : St A := fun s => (a, s).
Definition st_get : St registry := fun s => (s, s).
Definition st_bind {A B} (m : St A) (k : A -> St B) : St B :=
  fun s => let '(a, s') := m s in k a s'.

Inductive not_found := PluginNotFoundError (attempted : string).

(** Modelled from the spec: [Plugin.convert] (section 4.4), an exact,
    case-sensitive match on the [name] field of the registry's entries. *)
Definition resolve (candidate_name : string) : St (result not_found Plugin) :=
  st_bind st_get (fun reg =>
    st_ret
      (match filter (fun kp : string * Plugin => name kp.2 = candidate_name)
               (map_to_list reg) with
       | (_, p) :: _ => Ok p
       | [] => Err (PluginNotFoundError candidate_name)
       end)).

(** Sample inputs: the test module's plugin, a manifest with no
    [plugins] key, and plugin locations of which one holds the test
    manifest, one a malformed manifest, one is unreadable and the rest are
    missing. *)
Definition planet : Plugin :=
  mkPlugin "Planet" "planet" "Planet. Tells you which planet you are probably on." "v0.2.0".

Definition TITLE_ONLY_TOML : string := "title = " ++ dq ++ "x" ++ dq.

Definition sample_read (loc : string) : read_result :=
  if String.eqb loc "plugins" then Contents VALID_PLUGIN_TOML
  else if String.eqb loc "broken" then Contents "[[plugins"
  else if String.eqb loc "locked" then IOError PermissionError
  else IOError FileNotFoundError.

(** Registry keys are the names of their entries. *)
Definition keyed_by_name (reg : registry) : Prop :=
  forall k p, reg !! k = Some p -> name p = k.

End Plugins.

(** ** [scripts/export_requirements.py]: [check_hash]

    [content] is the dictionary [tomli] returns for [pyproject.toml], a
    top-level TOML table. A Python exception (a [KeyError] for a missing
    [tool] or [poetry] table, a [TypeError] or [AttributeError] when one of
    them is not a table) is [None]. [json.dumps(..., sort_keys=True)] and
    [hashlib.sha256(....encode()).hexdigest()] are Python's standard library
    and are section variables. *)
Module ExportRequirements.

Import Toml.

Definition _relevant_keys : list string :=
  ["dependencies"; "dev-dependencies"; "source"; "extras"].

(** A Python dict whose values may be [None]. *)
Definition pydict := list (string * option tval).

(** [content["tool"]["poetry"]], when both are tables. *)
Definition tool_poetry (content : table) : option table :=
  match table_get content "tool" with
  | Some (TTable tool) =>
      match table_get tool "poetry" with
      | Some (TTable poetry) => Some poetry
      | _ => None
      end
  | _ => None
  end.

(** [relevant_content[key] = content.get(key)] for each relevant key. *)
Definition relevant_content (content : table) : option pydict :=
  match tool_poetry content with
  | Some poetry => Some (map (fun key => (key, table_get poetry key)) _relevant_keys)
  | None => None
  end.

Section CheckHash.

Variable json_dumps_sort_keys : pydict -> string.
Variable sha256_hexdigest : string -> string.

Definition get_hash (content : table) : option string :=
  match relevant_content content with
  | Some relevant => Some (sha256_hexdigest (json_dumps_sort_keys relevant))
  | None => None
  end.

Definition check_hash (hash : string) (content : table) : option bool :=
  match get_hash content with
  | Some h => Some (String.eqb hash h)
  | None => None
  end.

End CheckHash.

(** A stand-in serializer used to exercise [check_hash] on samples: the
    first value when it is a string. *)
Definition toy_json (d : pydict) : string :=
  match d with
  | (_, Some (TStr s)) :: _ => s
  | _ => "null"
  end.

End ExportRequirements.

(** ** [scripts/export_requirements.py]: [main]

    [main] turns the parsed [poetry.lock] and [pyproject.toml] (TOML
    tables; floats and dates are outside [tval]) into the text of
    [requirements.txt]. Python exceptions are the [Err] outcomes of [Py].
    Characters are code points up to U+00FF, so Python's [\d], [\s], [\w]
    and [str.rstrip] are written out for that range. *)
Module Requirements.

Import Toml Plugins ExportRequirements.

Inductive pyexc := KeyError | TypeError | AttributeError | NotImplementedError.

Definition Py (A : Type) : Type := result pyexc A.

(** [v[k]] on a value of a TOML document. *)
Definition getitem (v : tval) (k : string) : Py tval :=
  match v with
  | TTable kvs => match table_get kvs k with Some x => Ok x | None => Err KeyError end
  | _ => Err TypeError
  end.

(** [v.get(k, None)]: only dicts have [get]. *)
Definition dict_get (v : tval) (k : string) : Py (option tval) :=
  match v with
  | TTable kvs => Ok (table_get kvs k)
  | _ => Err AttributeError
  end.

Definition has_get (v : tval) : bool :=
  match v with TTable _ => true | _ => false end.

(** A value used as a [str] operand of [+]. *)
Definition as_str (v : tval) : Py string :=
  match v with TStr s => Ok s | _ => Err TypeError end.

(** Dict keys: strings, ints and bools are hashable ([True == 1]); lists
    and dicts are not. *)
Definition key_check (v : tval) : Py tval :=
  match v with TArr _ | TTable _ => Err TypeError | _ => Ok v end.

Definition key_eqb (a b : tval) : bool :=
  match a, b with
  | TStr x, TStr y => String.eqb x y
  | TInt x, TInt y => Z.eqb x y
  | TInt x, TBool y | TBool y, TInt x => Z.eqb x (Z.b2z y)
  | TBool x, TBool y => Bool.eqb x y
  | _, _ => false
  end.

(** An insertion-ordered Python dict. *)
Definition pdict (A : Type) := list (tval * A).

Fixpoint pd_get {A} (d : pdict A) (k : tval) : option A :=
  match d with
  | [] => None
  | (k', v) :: d' => if key_eqb k' k then Some v else pd_get d' k
  end.

(** [d[k] = v]: an existing key keeps its position. *)
Fixpoint pd_set {A} (d : pdict A) (k : tval) (v : A) : pdict A :=
  match d with
  | [] => [(k, v)]
  | (k', v') :: d' => if key_eqb k' k then (k', v) :: d' else (k', v') :: pd_set d' k v
  end.

Definition pd_update {A} (d : pdict A) (e : pdict A) : pdict A :=
  fold_left (fun acc kv => pd_set acc kv.1 kv.2) e d.

Definition code (c : Ascii.ascii) : nat := Ascii.nat_of_ascii c.

Definition is_digit (c : Ascii.ascii) : bool := Nat.leb 48 (code c) && Nat.leb (code c) 57.

(** [\s] and [str.isspace] up to U+00FF. *)
Definition is_space (c : Ascii.ascii) : bool :=
  let n := code c in
  (Nat.leb 9 n && Nat.leb n 13) || (Nat.leb 28 n && Nat.leb n 32)
  || Nat.eqb n 133 || Nat.eqb n 160.

(** [\w] up to U+00FF: [_] and the characters [str.isalnum] accepts. *)
Definition is_word (c : Ascii.ascii) : bool :=
  let n := code c in
  (Nat.leb 48 n && Nat.leb n 57) || (Nat.leb 65 n && Nat.leb n 90)
  || (Nat.leb 97 n && Nat.leb n 122) || Nat.eqb n 95
  || Nat.eqb n 170 || Nat.eqb n 178 || Nat.eqb n 179 || Nat.eqb n 181
  || Nat.eqb n 185 || Nat.eqb n 186 || (Nat.leb 188 n && Nat.leb n 190)
  || (Nat.leb 192 n && Nat.leb n 214) || (Nat.leb 216 n && Nat.leb n 246)
  || Nat.leb 248 n.

Definition is_sign (c : Ascii.ascii) : bool :=
  let n := code c in Nat.eqb n 60 || Nat.eqb n 62 || Nat.eqb n 61 || Nat.eqb n 33.

Definition lstr (s : string) : list Ascii.ascii := String.list_ascii_of_string s.
Definition sstr (l : list Ascii.ascii) : string := String.string_of_list_ascii l.

(** [VERSION_RESTRICTER_REGEX.match]:
    "(?P<sign>[<>=!]{1,2})(?P<version>\d+\.\d+?)(?P<patch>\.\d+?|\.STAR)?"
    where STAR is an escaped star.
    The match is anchored at the start only. Backtracking never changes
    the outcome: giving back a sign character or a digit of [\d+] puts a
    sign or a digit where a digit or [.] is needed. The lazy [\d+?] takes
    one digit, after which the optional [patch] always lets the match end;
    [patch] is [.] and one digit, else [.*], else absent. The result is
    [(sign, version, patch)]. *)
Definition version_match (s : list Ascii.ascii)
    : option (list Ascii.ascii * list Ascii.ascii * option (list Ascii.ascii)) :=
  let sign_rest :=
    match s with
    | c1 :: c2 :: r =>
        if is_sign c1 then (if is_sign c2 then Some ([c1; c2], r) else Some ([c1], c2 :: r))
        else None
    | [c1] => if is_sign c1 then Some ([c1], []) else None
    | [] => None
    end in
  match sign_rest with
  | None => None
  | Some (sign, r1) =>
      let '(major, r2) := span is_digit r1 in
      match major, r2 with
      | _ :: _, dot :: d :: r3 =>
          if Nat.eqb (code dot) 46 && is_digit d then
            let patch :=
              match r3 with
              | p :: e :: _ =>
                  if Nat.eqb (code p) 46 then
                    if is_digit e then Some [p; e]
                    else if Nat.eqb (code e) 42 then Some [p; e] else None
                  else None
              | _ => None
              end in
            Some (sign, major ++ [dot; d], patch)
          else None
      | _, _ => None
      end
  end.

(** [PLATFORM_MARKERS_REGEX.match]:
    "sys_platform\s?==\s?Q(?P<platform>\w+)Q" where Q is a double quote,
    anchored at the start;
    each [\s?] and [\w+] is followed by a character it cannot match, so
    backtracking changes nothing. The result is the [platform] group. *)
Fixpoint prefixb (p s : list Ascii.ascii) : bool :=
  match p, s with
  | [], _ => true
  | x :: p', y :: s' => Ascii.eqb x y && prefixb p' s'
  | _ :: _, [] => false
  end.

(** [\s?]: one optional whitespace character. *)
Definition opt_space (l : list Ascii.ascii) : list Ascii.ascii :=
  match l with c :: r => if is_space c then r else l | [] => [] end.

Definition platform_match (s : list Ascii.ascii) : option (list Ascii.ascii) :=
  let pre := lstr "sys_platform" in
  if prefixb pre s then
    match opt_space (skipn (length pre) s) with
    | e1 :: e2 :: r =>
        if Nat.eqb (code e1) 61 && Nat.eqb (code e2) 61 then
          match opt_space r with
          | q :: r' =>
              if Nat.eqb (code q) 34 then
                let '(w, after) := span is_word r' in
                match w, after with
                | _ :: _, q' :: _ => if Nat.eqb (code q') 34 then Some w else None
                | _, _ => None
                end
              else None
          | [] => None
          end
        else None
    | _ => None
    end
  else None.

(** [str.split(", ")] and [str.count(", ")]: non-overlapping, from the
    left. *)
Fixpoint split_comma (s : list Ascii.ascii) : list (list Ascii.ascii) :=
  match s with
  | c :: ((d :: r) as t) =>
      if Nat.eqb (code c) 44 && Nat.eqb (code d) 32 then [] :: split_comma r
      else match split_comma t with
           | [] => [[c]]
           | w :: ws => (c :: w) :: ws
           end
  | [c] => [[c]]
  | [] => [[]]
  end.

Fixpoint count_comma (s : list Ascii.ascii) : nat :=
  match s with
  | c :: ((d :: r) as t) =>
      if Nat.eqb (code c) 44 && Nat.eqb (code d) 32 then S (count_comma r)
      else count_comma t
  | _ => 0
  end.

(** [needle in hay] for strings. *)
Fixpoint contains (needle hay : list Ascii.ascii) : bool :=
  if prefixb needle hay then true
  else match hay with [] => false | _ :: h => contains needle h end.

Fixpoint lstrip_space (s : list Ascii.ascii) : list Ascii.ascii :=
  match s with
  | c :: r => if is_space c then lstrip_space r else s
  | [] => []
  end.

(** [str.rstrip()]. *)
Definition rstrip (s : string) : string :=
  sstr (rev (lstrip_space (rev (lstr s)))).

Fixpoint str_ltb (a b : list Ascii.ascii) : bool :=
  match a, b with
  | [], [] => false
  | [], _ :: _ => true
  | _ :: _, [] => false
  | x :: a', y :: b' =>
      if Nat.ltb (code x) (code y) then true
      else if Nat.eqb (code x) (code y) then str_ltb a' b' else false
  end.

(** [sorted] on strings (code point order; a stable insertion sort). *)
Fixpoint insert_sorted (x : string) (l : list string) : list string :=
  match l with
  | [] => [x]
  | y :: l' => if str_ltb (lstr x) (lstr y) then x :: l else y :: insert_sorted x l'
  end.

Definition sort_strings (l : list string) : list string :=
  fold_left (fun acc x => insert_sorted x acc) l [].


(** [MESSAGE], with [__file__] ending in [export_requirements.py]. *)
Definition MESSAGE : string :=
  "# NOTICE: This file is automatically generated by scripts/export_requirements.py" +:+ nl
  +:+ "# This is also automatically regenerated when an edit to pyproject.toml or poetry.lock is commited.".

(** [for x in v]: a list yields its items, a dict its keys, a string its
    characters; other values are not iterable. *)
Definition iter_items (v : tval) : Py (list tval) :=
  match v with
  | TArr l => Ok l
  | TTable kvs => Ok (map (fun kv => TStr kv.1) kvs)
  | TStr s => Ok (map (fun c => TStr (String c EmptyString)) (lstr s))
  | _ => Err TypeError
  end.

(** [main_deps[package["name"]] = package] for every package of category
    ["main"]. *)
Fixpoint collect_main (pkgs : list tval) (acc : pdict tval) : Py (pdict tval) :=
  match pkgs with
  | [] => Ok acc
  | p :: ps =>
      cat <-? getitem p "category" ;;
      if key_eqb cat (TStr "main") then
        nm <-? getitem p "name" ;;
        k <-? key_check nm ;;
        collect_main ps (pd_set acc k p)
      else collect_main ps acc
  end.

(** The version specifier of a requirement line: [" @ " + url] or
    ["==" + version]. *)
Definition dep_line_base (pyproject_deps dep : tval) : Py string :=
  nm <-? getitem dep "name" ;;
  k <-? key_check nm ;;
  pdep <-? (match pyproject_deps with
            | TTable kvs =>
                Ok (match k with TStr s => table_get kvs s | _ => None end)
            | _ => Err AttributeError
            end) ;;
  let pinned := ver <-? getitem dep "version" ;; vs <-? as_str ver ;; Ok ("==" +:+ vs) in
  match pdep with
  | Some pd =>
      if has_get pd then
        g <-? dict_get pd "git" ;;
        match g with
        | Some _ => Err NotImplementedError
        | None =>
            u <-? dict_get pd "url" ;;
            match u with
            | Some _ => url <-? getitem pd "url" ;; us <-? as_str url ;; Ok (" @ " +:+ us)
            | None => pinned
            end
        end
      else pinned
  | None => pinned
  end.

Definition ends_with_star (p : list Ascii.ascii) : bool :=
  match last p with Some c => Nat.eqb (code c) 42 | None => false end.

(** One [python-versions] constraint: [version_kind sign "version+patch" ],
    followed by ["and "] unless it is the last. *)
Fixpoint version_clauses (pieces : list (list Ascii.ascii)) (count final : nat)
    (line : string) : Py string :=
  match pieces with
  | [] => Ok line
  | piece :: rest =>
      match version_match piece with
      | None => Err AttributeError
      | Some (sign, version, patch) =>
          let full := match patch with Some p => negb (ends_with_star p) | None => false end in
          let version_kind := if full then "python_full_version" else "python_version" in
          let patch' := match patch with
                        | Some p => if ends_with_star p then "" else sstr p
                        | None => "" end in
          let line := line +:+ version_kind +:+ " " +:+ sstr sign +:+ " "
                      +:+ dq +:+ sstr version +:+ patch' +:+ dq +:+ " "
                      +:+ (if Nat.ltb count final then "and " else "") in
          version_clauses rest (S count) final line
      end
  end.

Definition version_markers (line : string) (pyvers : tval) : Py string :=
  match pyvers with
  | TStr pv =>
      if String.eqb pv "*" then Ok line
      else version_clauses (split_comma (lstr pv)) 0 (count_comma (lstr pv)) (line +:+ " ; ")
  | _ => Err AttributeError
  end.

(** The dependencies of a package that carry [markers]: the entries
    [main] keeps in [dep_deps] after deleting the others. *)
Definition marker_deps (dep : tval) : Py (pdict tval) :=
  dd <-? dict_get dep "dependencies" ;;
  match dd with
  | None => Ok []
  | Some (TTable kvs) =>
      Ok (map (fun kv => (TStr kv.1, kv.2))
              (filter (fun kv : string * tval =>
                         has_get kv.2 && match dict_get kv.2 "markers" with
                                         | Ok (Some _) => true | _ => false end = true) kvs))
  | Some _ => Err AttributeError
  end.

(** One pass of [for dep in main_deps.values()]. *)
Definition process_dep (pyproject_deps dep : tval) (acc : pdict string * pdict tval)
    : Py (pdict string * pdict tval) :=
  line <-? dep_line_base pyproject_deps dep ;;
  pv <-? getitem dep "python-versions" ;;
  line <-? version_markers line pv ;;
  md <-? marker_deps dep ;;
  nm <-? getitem dep "name" ;;
  Ok (pd_set acc.1 nm line, pd_update acc.2 md).

Fixpoint process_deps (pyproject_deps : tval) (deps : list tval)
    (acc : pdict string * pdict tval) : Py (pdict string * pdict tval) :=
  match deps with
  | [] => Ok acc
  | d :: ds => acc' <-? process_dep pyproject_deps d acc ;; process_deps pyproject_deps ds acc'
  end.

(** The [sys_platform] pass over [to_add_markers]. *)
Definition platform_line (line : string) (platform : list Ascii.ascii) : string :=
  (if negb (contains (lstr ";") (lstr line)) then line +:+ " ; "
   else if contains (lstr "python_") (lstr line) || contains (lstr "sys_platform") (lstr line)
   then line +:+ "and " else line)
  +:+ "sys_platform == " +:+ dq +:+ sstr platform +:+ dq.

Fixpoint add_platform_markers (lines : pdict string) (markers : pdict tval)
    : Py (pdict string) :=
  match markers with
  | [] => Ok lines
  | (k, v) :: ms =>
      line <-? (match pd_get lines k with Some l => Ok l | None => Err KeyError end) ;;
      mv <-? getitem v "markers" ;;
      m <-? as_str mv ;;
      let line := match platform_match (lstr m) with
                  | Some plat => platform_line line plat
                  | None => line
                  end in
      add_platform_markers (pd_set lines k line) ms
  end.

Fixpoint line_texts (lines : pdict string) : Py (list string) :=
  match lines with
  | [] => Ok []
  | (k, v) :: ls => ks <-? as_str k ;; rest <-? line_texts ls ;; Ok ((ks +:+ rstrip v) :: rest)
  end.

Definition render (lines : pdict string) : Py string :=
  texts <-? line_texts lines ;;
  Ok (MESSAGE +:+ nl +:+ nl +:+ String.concat nl (sort_strings texts) +:+ nl).

Section Main.

Variable json_dumps_sort_keys : pydict -> string.
Variable sha256_hexdigest : string -> string.

(** [check_hash] with its exceptions: [content["tool"]["poetry"]] and the
    [get] of the first relevant key. *)
Definition get_hash_py (content : table) : Py string :=
  tool <-? getitem (TTable content) "tool" ;;
  poetry <-? getitem tool "poetry" ;;
  match poetry with
  | TTable kvs =>
      Ok (sha256_hexdigest (json_dumps_sort_keys
            (map (fun key => (key, table_get kvs key)) _relevant_keys)))
  | _ => Err AttributeError
  end.

Definition check_hash_py (hash : tval) (content : table) : Py bool :=
  h <-? get_hash_py content ;;
  Ok (match hash with TStr s => String.eqb s h | _ => false end).

(** The requirements text [main] builds. *)
Definition requirements_text (pyproject lockfile : table) : Py string :=
  tool <-? getitem (TTable pyproject) "tool" ;;
  poetry <-? getitem tool "poetry" ;;
  pyproject_deps <-? getitem poetry "dependencies" ;;
  pkgs <-? getitem (TTable lockfile) "package" ;;
  items <-? iter_items pkgs ;;
  main_deps <-? collect_main items [] ;;
  acc <-? process_deps pyproject_deps (map snd main_deps) ([], []) ;;
  lines <-? add_platform_markers acc.1 acc.2 ;;
  render lines.

(** [main(req_path, should_validate_hash)]: [req_file] is the content of
    [req_path] ([None] when it does not exist); the result is the exit
    code with the file afterwards. *)
Definition main (req_file : option string) (pyproject lockfile : table)
    (should_validate_hash : bool) : Py (Z * option string) :=
  ok <-? (if should_validate_hash then
            md <-? getitem (TTable lockfile) "metadata" ;;
            hv <-? getitem md "content-hash" ;;
            check_hash_py hv pyproject
          else Ok true) ;;
  if negb ok then Ok (2, req_file)
  else
    req_txt <-? requirements_text pyproject lockfile ;;
    match req_file with
    | Some old => if String.eqb req_txt old then Ok (0, req_file) else Ok (1, Some req_txt)
    | None => Ok (1, Some req_txt)
    end.

End Main.



End Requirements.

(** ** [modmail/extensions/meta.py]: the title of the [ping] reply

    [ctx.invoked_with] is the name the command was called by, [ping] or
    its alias [pong] in any case (the command lookup is case-insensitive
    when the bot is configured so). Characters are code points up to
    U+00FF. *)
Module Meta.

(** [str.lower] on one character up to U+00FF: [A-Z] and the Latin-1
    capitals U+00C0 to U+00DE except U+00D7 move down by 32. *)
Definition lower_char (c : Ascii.ascii) : Ascii.ascii :=
  let n := Ascii.nat_of_ascii c in
  if (Nat.leb 65 n && Nat.leb n 90) || (Nat.leb 192 n && Nat.leb n 222 && negb (Nat.eqb n 215))
  then Ascii.ascii_of_nat (n + 32) else c.

Fixpoint lower (s : string) : string :=
  match s with
  | EmptyString => EmptyString
  | String c s' => String (lower_char c) (lower s')
  end.

Definition upper_ascii (c : Ascii.ascii) : Ascii.ascii :=
  let n := Ascii.nat_of_ascii c in
  if Nat.leb 97 n && Nat.leb n 122 then Ascii.ascii_of_nat (n - 32) else c.

(** [str.capitalize] for the ASCII words it is applied to here ([ping]
    and [pong]): the first character in upper case, the rest in lower
    case. *)
Definition capitalize (s : string) : string :=
  match s with
  | EmptyString => EmptyString
  | String c s' => String (upper_ascii c) (lower s')
  end.

(** [("ping" if ctx.invoked_with.lower() == "pong" else "pong").capitalize() + "!"] *)
Definition ping_title (invoked_with : string) : string :=
  capitalize (if String.eqb (lower invoked_with) "pong" then "ping" else "pong") +:+ "!".

End Meta.

(** * Properties *)

Module CogsFacts.

Import Cogs.

Lemma getattr_not_key (o : pyobj) (k : string) (d : bool) :
  k ∉ o.*1 -> getattr o k d = d.
Proof.
  induction o as [|[k' v] o IH]; simpl; [done|].
  intros Hn. destruct (String.eqb_spec k' k) as [->|Hne].
  - exfalso. apply Hn. left.
  - apply IH. intros Hin. apply Hn. right. exact Hin.
Qed.

Lemma getattr_perm (o o' : pyobj) (k : string) (d : bool) :
  NoDup o.*1 -> o ≡ₚ o' -> getattr o k d = getattr o' k d.
Proof.
  intros Hnd Hp. revert Hnd. induction Hp as
    [| [k1 v1] l l' Hp IH | [k1 v1] [k2 v2] l | l l' l'' Hp1 IH1 Hp2 IH2];
    intros Hnd; simpl.
  - done.
  - inversion Hnd; subst. rewrite IH by done. done.
  - simpl in Hnd. inversion Hnd as [|? ? Hn1 Hnd1]; subst.
    destruct (String.eqb_spec k2 k) as [->|]; destruct (String.eqb_spec k1 k) as [->|]; try done.
    exfalso. apply Hn1. left.
  - rewrite IH1 by done. apply IH2.
    by rewrite <-Hp1.
Qed.

Lemma calc_mode_perm (o o' : pyobj) :
  NoDup o.*1 -> o ≡ₚ o' -> calc_mode o = calc_mode o'.
Proof.
  intros Hnd Hp. unfold calc_mode.
  rewrite !(getattr_perm o o') by done. reflexivity.
Qed.

Lemma ext_obj_nodup (m : ExtMetadata) : NoDup (ext_obj m).*1.
Proof.
  simpl. repeat constructor; set_solver.
Qed.

Ltac case_flags m := destruct m as [[] [] []]; reflexivity.

(** C1: for every [ExtMetadata] (any of the eight flag combinations), and
    whatever the order in which its attributes are listed, [calc_mode] is
    [int(production) | int(develop) << 1 | int(plugin_dev) << 2], which is
    also the sum [1 * production + 2 * develop + 4 * plugin_dev]. *)
Theorem calc_mode_exact (m : ExtMetadata) (o : pyobj) :
  o ≡ₚ ext_obj m ->
  calc_mode o = Z.lor (Z.b2z (production m))
                  (Z.lor (Z.shiftl (Z.b2z (develop m)) 1)
                         (Z.shiftl (Z.b2z (plugin_dev m)) 2))
  /\ calc_mode o = 1 * Z.b2z (production m) + 2 * Z.b2z (develop m)
                   + 4 * Z.b2z (plugin_dev m).
Proof.
  intros Hp.
  assert (He : calc_mode (ext_obj m) = calc_mode o).
  { apply calc_mode_perm; [apply ext_obj_nodup|]. symmetry. exact Hp. }
  rewrite <-He. split; case_flags m.
Qed.

Lemma calc_mode_exact_witness :
  [("plugin_dev", true); ("production", true); ("develop", false)]
    ≡ₚ ext_obj {| production := true; develop := false; plugin_dev := true |}
  /\ calc_mode [("plugin_dev", true); ("production", true); ("develop", false)] = 5.
Proof.
  assert (Hp : [("plugin_dev", true); ("production", true); ("develop", false)]
    ≡ₚ ext_obj {| production := true; develop := false; plugin_dev := true |}).
  { unfold ext_obj; simpl. econstructor 4; [apply perm_swap|]. constructor.
    apply perm_swap. }
  split; [exact Hp|].
  destruct (calc_mode_exact _ _ Hp) as [_ ->]. reflexivity.
Defined.

(** C2: [calc_mode] is a total function into [0, 7] (its type has no error
    outcome), and an attribute among [production], [develop],
    [plugin_dev] that the object lacks counts as [False]: the result is the
    same as with that attribute present and false. *)
Theorem calc_mode_total (o : pyobj) :
  0 <= calc_mode o <= 7
  /\ (forall a : string, a ∈ ["production"; "develop"; "plugin_dev"] ->
        a ∉ o.*1 -> calc_mode o = calc_mode ((a, false) :: o)).
Proof.
  split.
  - unfold calc_mode, py_or.
    destruct (getattr o "production" false), (getattr o "develop" false),
      (getattr o "plugin_dev" false); split; apply Z.leb_le; reflexivity.
  - intros a Ha Hn. unfold calc_mode. simpl.
    rewrite !elem_of_cons, elem_of_nil in Ha.
    destruct Ha as [->|[->|[->|[]]]]; simpl;
      rewrite (getattr_not_key o _ false Hn); reflexivity.
Qed.

Lemma calc_mode_total_witness :
  calc_mode [("develop", true)] = calc_mode [("production", false); ("develop", true)]
  /\ calc_mode [("develop", true)] = 2.
Proof.
  split; [|reflexivity].
  destruct (calc_mode_total [("develop", true)]) as [_ H].
  apply H.
  - set_solver.
  - simpl. set_solver.
Defined.

(** C3: the [BotModes] values produced by [_generate_next_value_] are
    [production = 1], [develop = 2], [plugin_dev = 4]; each is a single bit
    and two different modes share no bit. *)
Theorem botmodes_values :
  BotModes = [("production", 1); ("develop", 2); ("plugin_dev", 4)]
  /\ (forall n v, In (n, v) BotModes -> exists i, 0 <= i /\ v = 2 ^ i)
  /\ (forall n1 v1 n2 v2, In (n1, v1) BotModes -> In (n2, v2) BotModes ->
        n1 <> n2 -> Z.land v1 v2 = 0).
Proof.
  assert (HB : BotModes = [("production", 1); ("develop", 2); ("plugin_dev", 4)])
    by reflexivity.
  split; [exact HB|]. rewrite HB. split.
  - intros n v Hin. simpl in Hin.
    destruct Hin as [H|[H|[H|[]]]]; injection H as <- <-.
    + exists 0; lia.
    + exists 1; lia.
    + exists 2; lia.
  - intros n1 v1 n2 v2 H1 H2 Hne. simpl in H1, H2.
    destruct H1 as [H1|[H1|[H1|[]]]]; injection H1 as <- <-;
    destruct H2 as [H2|[H2|[H2|[]]]]; injection H2 as <- <-;
    solve [reflexivity | congruence].
Qed.

Lemma botmodes_values_witness :
  Z.land 2 4 = 0 /\ (exists i, 0 <= i /\ 4 = 2 ^ i).
Proof.
  destruct botmodes_values as [HB [Hpow Hdis]]. split.
  - apply (Hdis "develop" 2 "plugin_dev" 4).
    + rewrite HB. simpl. right. left. reflexivity.
    + rewrite HB. simpl. right. right. left. reflexivity.
    + discriminate.
  - apply (Hpow "plugin_dev"). rewrite HB. simpl. right. right. left. reflexivity.
Defined.

(** C10: [EXT_METADATA = ExtMetadata()] of the Meta extension has mode 0,
    so [m & 0 != 0] is false for every bot mode [m] and the extension
    loads under no mode. *)
Theorem default_metadata_loads_nowhere :
  calc_mode (ext_obj meta_EXT_METADATA) = 0
  /\ (forall n m, In (n, m) BotModes -> loads_under m (ext_obj meta_EXT_METADATA) = false).
Proof.
  split; [reflexivity|].
  intros n m _. unfold loads_under.
  change (calc_mode (ext_obj meta_EXT_METADATA)) with 0.
  rewrite Z.land_0_r. reflexivity.
Qed.

Lemma default_metadata_loads_nowhere_witness :
  loads_under 1 (ext_obj meta_EXT_METADATA) = false.
Proof.
  apply (proj2 default_metadata_loads_nowhere "production").
  simpl. left. reflexivity.
Defined.

End CogsFacts.

Module PluginFacts.

Import Toml Plugins.

Lemma rbind_Err {E A B} (m : result E A) (k : A -> result E B) (e : E) :
  rbind m k = Err e -> m = Err e \/ exists a, m = Ok a /\ k a = Err e.
Proof. destruct m; simpl; intros H; [right; eauto | left; injection H as ->; reflexivity]. Qed.

Lemma rbind_Ok {E A B} (m : result E A) (k : A -> result E B) (b : B) :
  rbind m k = Ok b -> exists a, m = Ok a /\ k a = Ok b.
Proof. destruct m; simpl; [eauto | discriminate]. Qed.

Lemma req_str_err (kvs : table) (k : string) (err : manifest_error) :
  req_str kvs k = Err err -> err = SchemaError k.
Proof.
  unfold req_str. destruct (table_get kvs k) as [[]|]; intros H; congruence.
Qed.

Lemma req_str_ok (kvs : table) (k s : string) :
  req_str kvs k = Ok s -> table_get kvs k = Some (TStr s).
Proof.
  unfold req_str. destruct (table_get kvs k) as [[]|]; intros H; try discriminate.
  injection H as <-. reflexivity.
Qed.

Lemma entry_of_tval_err (e : tval) (err : manifest_error) :
  entry_of_tval e = Err err -> exists f, err = SchemaError f.
Proof.
  destruct e as [| | | |kvs]; simpl; intros H;
    try (injection H as <-; eexists; reflexivity).
  repeat (apply rbind_Err in H as [H|[? [_ H]]];
          [apply req_str_err in H; eexists; exact H|]).
  discriminate.
Qed.

Lemma entry_of_tval_fields (kvs : table) (p : Plugin) (f : string) :
  entry_of_tval (TTable kvs) = Ok p ->
  In f ["name"; "folder"; "description"; "min_bot_version"] ->
  exists s, table_get kvs f = Some (TStr s).
Proof.
  simpl. intros H Hf.
  apply rbind_Ok in H as [n [Hn H]]. apply rbind_Ok in H as [fo [Hfo H]].
  apply rbind_Ok in H as [d [Hd H]]. apply rbind_Ok in H as [v [Hv _]].
  destruct Hf as [<-|[<-|[<-|[<-|[]]]]]; eexists; apply req_str_ok; eassumption.
Qed.

Lemma entries_of_err (es : list tval) (err : manifest_error) :
  entries_of es = Err err -> exists f, err = SchemaError f.
Proof.
  induction es as [|e es IH]; simpl; [discriminate|].
  unfold rbind. destruct (entry_of_tval e) eqn:He.
  - destruct (entries_of es) eqn:Hes; intros H; simplify_eq. by apply IH.
  - intros H; simplify_eq. by eapply entry_of_tval_err.
Qed.

Lemma entries_of_ok (es : list tval) (ps : list Plugin) (e : tval) :
  entries_of es = Ok ps -> In e es -> exists p, entry_of_tval e = Ok p.
Proof.
  revert ps. induction es as [|e' es IH]; simpl; intros ps H Hin; [done|].
  unfold rbind in H. destruct (entry_of_tval e') eqn:He; [|discriminate].
  destruct (entries_of es) eqn:Hes; [|discriminate].
  destruct Hin as [<-|Hin]; eauto.
Qed.

Lemma find_from_app (loads : string -> option table) (read : string -> read_result)
    (pre rest : list string) (reg : registry) :
  find_from loads read (pre ++ rest) reg =
  match find_from loads read pre reg with
  | Ok reg' => find_from loads read rest reg'
  | Err e => Err e
  end.
Proof.
  revert reg. induction pre as [|loc pre IH]; intros reg; simpl; [done|].
  destruct (read loc) as [text|[]]; try done.
  destruct (parse_plugin_toml_from_string loads text) as [ps|[]]; try done.
  destruct (merge_entries ps reg); done.
Qed.

Lemma merge_entries_keyed (ps : list Plugin) (reg reg' : registry) :
  keyed_by_name reg -> merge_entries ps reg = Ok reg' -> keyed_by_name reg'.
Proof.
  revert reg. induction ps as [|p ps IH]; simpl; intros reg Hk H.
  - by simplify_eq.
  - destruct (reg !! name p) eqn:Hl; [discriminate|].
    refine (IH _ _ H). intros k q Hq.
    destruct (decide (name p = k)) as [<-|Hne].
    + rewrite lookup_insert_eq in Hq. by simplify_eq.
    + rewrite lookup_insert_ne in Hq by done. by apply Hk.
Qed.

Lemma find_from_keyed (loads : string -> option table) (read : string -> read_result)
    (locs : list string) (reg reg' : registry) :
  keyed_by_name reg -> find_from loads read locs reg = Ok reg' -> keyed_by_name reg'.
Proof.
  revert reg. induction locs as [|loc locs IH]; simpl; intros reg Hk H.
  - by simplify_eq.
  - destruct (read loc) as [text|[]]; try discriminate; [|by eapply IH].
    destruct (parse_plugin_toml_from_string loads text) as [ps|[]]; try discriminate.
    destruct (merge_entries ps reg) as [r|] eqn:Hm; [|discriminate].
    eapply IH; [|exact H]. by eapply merge_entries_keyed.
Qed.

Lemma resolve_filter_elem (reg : registry) (cand k : string) (p : Plugin)
    (rest : list (string * Plugin)) :
  filter (fun kp : string * Plugin => name kp.2 = cand) (map_to_list reg) = (k, p) :: rest ->
  reg !! k = Some p /\ name p = cand.
Proof.
  intros Hf.
  assert (Hin : (k, p) ∈ filter (fun kp : string * Plugin => name kp.2 = cand)
                  (map_to_list reg)) by (rewrite Hf; left).
  apply list_elem_of_filter in Hin as [Hn Hin]. simpl in Hn.
  apply elem_of_map_to_list in Hin. done.
Qed.

(** C4: the manifest [VALID_PLUGIN_TOML] of the test module parses into
    exactly one entry, [Planet], whose TOML key [folder] became
    [folder_name]. *)
Theorem parse_valid_manifest :
  parse_plugin_toml_from_string loads_subset VALID_PLUGIN_TOML
  = Ok [mkPlugin "Planet" "planet"
          "Planet. Tells you which planet you are probably on." "v0.2.0"].
Proof. vm_compute. reflexivity. Qed.

(** C5: for every entry of a registry built by [find_plugins], resolving
    its [name] returns that entry (and leaves the registry as it was). *)
Theorem resolve_found_plugin (loads : string -> option table)
    (read : string -> read_result) (locs : list string) (reg : registry) :
  find_plugins loads read locs = Ok reg ->
  forall k p, reg !! k = Some p -> resolve (name p) reg = (Ok p, reg).
Proof.
  intros Hfind k p Hkp.
  assert (Hk : keyed_by_name reg).
  { eapply find_from_keyed; [|exact Hfind]. intros k' q Hq. by rewrite lookup_empty in Hq. }
  unfold resolve, st_bind, st_get, st_ret.
  destruct (filter (fun kp : string * Plugin => name kp.2 = name p) (map_to_list reg))
    as [|[k' p'] rest] eqn:Hf.
  - exfalso.
    assert (Hin : (k, p) ∈ filter (fun kp : string * Plugin => name kp.2 = name p)
                    (map_to_list reg)).
    { apply list_elem_of_filter. split; [done|]. by apply elem_of_map_to_list. }
    rewrite Hf in Hin. by apply elem_of_nil in Hin.
  - apply resolve_filter_elem in Hf as [Hk' Hn].
    pose proof (Hk _ _ Hk') as Hn'. pose proof (Hk _ _ Hkp) as Hnp.
    assert (k' = k) as -> by congruence.
    rewrite Hkp in Hk'. by simplify_eq.
Qed.

Lemma resolve_found_plugin_witness :
  find_plugins loads_subset sample_read ["missing"; "plugins"] = Ok {[ "Planet" := planet ]}
  /\ resolve "Planet" {[ "Planet" := planet ]} = (Ok planet, {[ "Planet" := planet ]}).
Proof.
  assert (Hf : find_plugins loads_subset sample_read ["missing"; "plugins"]
               = Ok {[ "Planet" := planet ]}) by (vm_compute; reflexivity).
  split; [exact Hf|].
  apply (resolve_found_plugin loads_subset sample_read ["missing"; "plugins"] _ Hf
           "Planet" planet).
  apply lookup_singleton_eq.
Defined.

(** C6: when no entry of the registry is named [candidate_name], the
    resolver fails with [PluginNotFoundError] carrying exactly that name,
    and the registry is left unchanged. *)
Theorem resolve_not_found (reg : registry) (candidate_name : string) :
  (forall k p, reg !! k = Some p -> name p <> candidate_name) ->
  resolve candidate_name reg = (Err (PluginNotFoundError candidate_name), reg).
Proof.
  intros Hnone. unfold resolve, st_bind, st_get, st_ret.
  destruct (filter (fun kp : string * Plugin => name kp.2 = candidate_name) (map_to_list reg))
    as [|[k p] rest] eqn:Hf; [done|].
  apply resolve_filter_elem in Hf as [Hk Hn]. by destruct (Hnone _ _ Hk Hn).
Qed.

Lemma resolve_not_found_witness :
  resolve "planet" {[ "Planet" := planet ]}
  = (Err (PluginNotFoundError "planet"), {[ "Planet" := planet ]}).
Proof.
  apply resolve_not_found. intros k p Hk.
  apply lookup_singleton_Some in Hk as [_ <-]. discriminate.
Defined.

(** C7: a text the TOML reader rejects fails with [ParseError]; a valid
    document without a [plugins] key, or with an entry lacking one of
    [name], [folder], [description], [min_bot_version], fails with a
    [SchemaError] (no default is supplied); in particular the test
    manifest without its [min_bot_version] line does. *)
Theorem parse_manifest_errors :
  (forall (loads : string -> option table) (text : string),
     loads text = None -> parse_plugin_toml_from_string loads text = Err ParseError)
  /\ (forall (loads : string -> option table) (text : string) (doc : table),
        loads text = Some doc ->
        (table_get doc "plugins" = None
         \/ exists es kvs f, table_get doc "plugins" = Some (TArr es)
              /\ In (TTable kvs) es
              /\ In f ["name"; "folder"; "description"; "min_bot_version"]
              /\ table_get kvs f = None) ->
        exists f, parse_plugin_toml_from_string loads text = Err (SchemaError f))
  /\ parse_plugin_toml_from_string loads_subset NO_MIN_VERSION_TOML
     = Err (SchemaError "min_bot_version").
Proof.
  split; [|split].
  - intros loads text H. unfold parse_plugin_toml_from_string. by rewrite H.
  - intros loads text doc Hl Hc. unfold parse_plugin_toml_from_string. rewrite Hl.
    destruct Hc as [Hn|[es [kvs [f [Hp [Hin [Hf Hmiss]]]]]]].
    + rewrite Hn. eauto.
    + rewrite Hp. destruct (entries_of es) as [ps|err] eqn:Hes.
      * exfalso. destruct (entries_of_ok _ _ _ Hes Hin) as [p Hp'].
        destruct (entry_of_tval_fields _ _ _ Hp' Hf) as [s Hs]. congruence.
      * destruct (entries_of_err _ _ Hes) as [f' ->]. eauto.
  - vm_compute. reflexivity.
Qed.

Lemma parse_manifest_errors_witness :
  parse_plugin_toml_from_string loads_subset "[[plugins" = Err ParseError
  /\ (exists f, parse_plugin_toml_from_string loads_subset TITLE_ONLY_TOML
               = Err (SchemaError f)).
Proof.
  split.
  - apply (proj1 parse_manifest_errors). vm_compute. reflexivity.
  - apply (proj1 (proj2 parse_manifest_errors) loads_subset TITLE_ONLY_TOML
             [("title", TStr "x")]).
    + vm_compute. reflexivity.
    + left. reflexivity.
Defined.

Lemma merge_entries_err (ps : list Plugin) (reg : registry) (e : find_error) :
  merge_entries ps reg = Err e -> exists n, e = DuplicatePluginError n.
Proof.
  revert reg. induction ps as [|p ps IH]; simpl; intros reg H; [discriminate|].
  destruct (reg !! name p); [injection H as <-; eauto | eauto].
Qed.

Lemma find_from_parse_error (loads : string -> option table) (read : string -> read_result)
    (locs : list string) (reg : registry) (p : string) :
  find_from loads read locs reg = Err (ParseErrorAt p) ->
  In p locs /\ exists text, read p = Contents text
                /\ parse_plugin_toml_from_string loads text = Err ParseError.
Proof.
  revert reg. induction locs as [|loc locs IH]; simpl; intros reg H; [discriminate|].
  destruct (read loc) as [text|[]] eqn:Hr.
  - destruct (parse_plugin_toml_from_string loads text) as [ps|[]] eqn:Hp.
    + destruct (merge_entries ps reg) as [r|e] eqn:Hm.
      * destruct (IH _ H) as [Hin Ht]. eauto.
      * injection H as ->. destruct (merge_entries_err _ _ _ Hm). discriminate.
    + injection H as <-. eauto.
    + discriminate.
  - destruct (IH _ H) as [Hin Ht]. eauto.
  - discriminate.
  - discriminate.
Qed.

Lemma find_from_io_error (loads : string -> option table) (read : string -> read_result)
    (locs : list string) (reg : registry) (p : string) (e : io_error) :
  find_from loads read locs reg = Err (IOErrorAt p e) ->
  In p locs /\ read p = IOError e /\ e <> FileNotFoundError.
Proof.
  revert reg. induction locs as [|loc locs IH]; simpl; intros reg H; [discriminate|].
  destruct (read loc) as [text|[]] eqn:Hr.
  - destruct (parse_plugin_toml_from_string loads text) as [ps|[]] eqn:Hp;
      try discriminate.
    destruct (merge_entries ps reg) as [r|e'] eqn:Hm.
    + destruct (IH _ H) as [Hin Ht]. eauto.
    + injection H as ->. destruct (merge_entries_err _ _ _ Hm). discriminate.
  - destruct (IH _ H) as [Hin Ht]. eauto.
  - injection H as <- <-. eauto.
  - injection H as <- <-. eauto.
Qed.

(** C8: a missing plugin location ([FileNotFoundError]) is skipped and
    contributes nothing, the scan going on as if it were not configured; a
    malformed manifest, reached after locations read without error, ends
    the scan with a parse error naming its path; a parse error always
    names a configured location whose manifest the reader rejects; and an
    I/O error that reaches the caller is never [FileNotFoundError]. *)
Theorem find_plugins_failures :
  (forall (loads : string -> option table) (read : string -> read_result)
          (pre post : list string) (d : string),
     read d = IOError FileNotFoundError ->
     find_plugins loads read (pre ++ d :: post) = find_plugins loads read (pre ++ post))
  /\ (forall (loads : string -> option table) (read : string -> read_result)
             (pre post : list string) (d text : string) (reg : registry),
        find_plugins loads read pre = Ok reg ->
        read d = Contents text ->
        parse_plugin_toml_from_string loads text = Err ParseError ->
        find_plugins loads read (pre ++ d :: post) = Err (ParseErrorAt d))
  /\ (forall (loads : string -> option table) (read : string -> read_result)
             (locs : list string) (p : string),
        find_plugins loads read locs = Err (ParseErrorAt p) ->
        In p locs /\ exists text, read p = Contents text
                      /\ parse_plugin_toml_from_string loads text = Err ParseError)
  /\ (forall (loads : string -> option table) (read : string -> read_result)
             (locs : list string) (p : string) (e : io_error),
        find_plugins loads read locs = Err (IOErrorAt p e) ->
        In p locs /\ read p = IOError e /\ e <> FileNotFoundError).
Proof.
  unfold find_plugins. split; [|split; [|split]].
  - intros loads read pre post d Hd. rewrite !find_from_app.
    destruct (find_from loads read pre ∅); [|done]. simpl. by rewrite Hd.
  - intros loads read pre post d text reg Hpre Hd Hp.
    rewrite find_from_app, Hpre. simpl. by rewrite Hd, Hp.
  - intros loads read locs p H. by eapply find_from_parse_error.
  - intros loads read locs p e H. by eapply find_from_io_error.
Qed.

Lemma find_plugins_failures_witness :
  find_plugins loads_subset sample_read ["missing"; "plugins"]
    = find_plugins loads_subset sample_read ["plugins"]
  /\ find_plugins loads_subset sample_read ["plugins"; "broken"; "missing"]
    = Err (ParseErrorAt "broken")
  /\ PermissionError <> FileNotFoundError.
Proof.
  destruct find_plugins_failures as [Ha [Hb [_ Hd]]]. split; [|split].
  - apply (Ha loads_subset sample_read [] ["plugins"] "missing"). reflexivity.
  - apply (Hb loads_subset sample_read ["plugins"] ["missing"] "broken" "[[plugins"
             {[ "Planet" := planet ]}).
    + vm_compute. reflexivity.
    + reflexivity.
    + vm_compute. reflexivity.
  - apply (Hd loads_subset sample_read ["locked"] "locked"). vm_compute. reflexivity.
Defined.

End PluginFacts.

Module ExportRequirementsFacts.

Import Toml ExportRequirements.

(** C9: [check_hash] reads nothing of [content] but the four keys
    [dependencies], [dev-dependencies], [source], [extras] of
    [content["tool"]["poetry"]] (a missing key counting as [None]): two
    contents that agree on them give the same boolean for every hash, and
    the result is [True] exactly when the hash is the SHA-256 hex digest
    of the sorted-key JSON dump of the mapping of those four keys. *)
Theorem check_hash_relevant_keys (json_dumps_sort_keys : pydict -> string)
    (sha256_hexdigest : string -> string) :
  (forall (hash : string) (c1 c2 poetry1 poetry2 : table),
     tool_poetry c1 = Some poetry1 -> tool_poetry c2 = Some poetry2 ->
     (forall key, In key _relevant_keys -> table_get poetry1 key = table_get poetry2 key) ->
     exists b, check_hash json_dumps_sort_keys sha256_hexdigest hash c1 = Some b
               /\ check_hash json_dumps_sort_keys sha256_hexdigest hash c2 = Some b)
  /\ (forall (hash : string) (content poetry : table),
        tool_poetry content = Some poetry ->
        (check_hash json_dumps_sort_keys sha256_hexdigest hash content = Some true
         <-> hash = sha256_hexdigest (json_dumps_sort_keys
                      [("dependencies", table_get poetry "dependencies");
                       ("dev-dependencies", table_get poetry "dev-dependencies");
                       ("source", table_get poetry "source");
                       ("extras", table_get poetry "extras")]))).
Proof.
  unfold check_hash, get_hash, relevant_content. split.
  - intros hash c1 c2 p1 p2 H1 H2 Hagree. rewrite H1, H2.
    assert (Hmap : map (fun key => (key, table_get p1 key)) _relevant_keys
                   = map (fun key => (key, table_get p2 key)) _relevant_keys).
    { apply map_ext_in. intros key Hin. by rewrite Hagree. }
    rewrite Hmap. eauto.
  - intros hash content poetry H. rewrite H. simpl. split.
    + intros Heq. injection Heq as Heq. by apply String.eqb_eq.
    + intros ->. by rewrite String.eqb_refl.
Qed.

Lemma check_hash_relevant_keys_witness :
  (exists b,
     check_hash toy_json (fun s => s) "abc"
       [("tool", TTable [("poetry", TTable [("dependencies", TStr "abc"); ("name", TStr "a")])])]
     = Some b
     /\ check_hash toy_json (fun s => s) "abc"
       [("tool", TTable [("poetry", TTable [("name", TStr "b"); ("dependencies", TStr "abc")])])]
     = Some b)
  /\ check_hash toy_json (fun s => s) "abc"
       [("tool", TTable [("poetry", TTable [("dependencies", TStr "abc")])])] = Some true.
Proof.
  destruct (check_hash_relevant_keys toy_json (fun s => s)) as [Hdep Hiff]. split.
  - apply (Hdep "abc" _ _ [("dependencies", TStr "abc"); ("name", TStr "a")]
                          [("name", TStr "b"); ("dependencies", TStr "abc")]).
    + reflexivity.
    + reflexivity.
    + intros key Hin. simpl in Hin.
      destruct Hin as [<-|[<-|[<-|[<-|[]]]]]; reflexivity.
  - apply (Hiff "abc" _ [("dependencies", TStr "abc")]); reflexivity.
Defined.

End ExportRequirementsFacts.

Module RequirementsFacts.

Import Toml Plugins ExportRequirements Requirements.

Local Open Scope nat_scope.

Ltac all_chars c := destruct c as [[] [] [] [] [] [] [] []].

Lemma digit_not_sign (c : Ascii.ascii) :
  is_digit c = true -> is_sign c = false /\ Nat.eqb (code c) 46 = false
                       /\ Nat.eqb (code c) 42 = false.
Proof. all_chars c; vm_compute; intros H; try discriminate; auto. Qed.

Lemma code_inj (c : Ascii.ascii) (n : nat) :
  Nat.eqb (code c) n = true -> n < 256 -> c = chr n.
Proof.
  intros H Hn. apply Nat.eqb_eq in H. subst n. unfold chr, code.
  by rewrite Ascii.ascii_nat_embedding.
Qed.

Lemma span_spec (p : Ascii.ascii -> bool) (s a b : list Ascii.ascii) :
  span p s = (a, b) ->
  s = a ++ b /\ Forall (fun x => p x = true) a
  /\ match b with x :: _ => p x = false | [] => True end.
Proof.
  revert a b. induction s as [|x s IH]; simpl; intros a b H.
  - injection H as <- <-. auto.
  - destruct (p x) eqn:Hp.
    + destruct (span p s) as [a' b'] eqn:Hs. injection H as <- <-.
      destruct (IH _ _ eq_refl) as [-> [Ha Hb]]. auto.
    + injection H as <- <-. simpl. auto.
Qed.

Lemma span_app (p : Ascii.ascii -> bool) (a : list Ascii.ascii) (x : Ascii.ascii)
    (r : list Ascii.ascii) :
  Forall (fun c => p c = true) a -> p x = false -> span p (a ++ x :: r) = (a, x :: r).
Proof.
  induction 1 as [|c a Hc Ha IH]; simpl; intros Hx.
  - by rewrite Hx.
  - rewrite Hc, IH by done. reflexivity.
Qed.



(** A minor version of two or more digits is cut to its first digit and
    no patch is recorded: [>=3.10] and [>=3.10.2] both give the version
    group [3.1]. *)
Theorem version_match_truncates_minor (sign major : list Ascii.ascii)
    (d1 d2 : Ascii.ascii) (ms r : list Ascii.ascii) :
  (length sign = 1 \/ length sign = 2) -> Forall (fun c => is_sign c = true) sign ->
  major <> [] -> Forall (fun c => is_digit c = true) major ->
  is_digit d1 = true -> is_digit d2 = true ->
  version_match (sign ++ major ++ chr 46 :: d1 :: d2 :: ms ++ r)
  = Some (sign, major ++ [chr 46; d1], None).
Proof.
  intros Hlen Hsg Hmaj Hdig Hd1 Hd2.
  destruct major as [|m0 mr]; [done|].
  pose proof (Forall_inv Hdig) as Hm0. simpl in Hm0.
  destruct (digit_not_sign _ Hm0) as [Hm0s _].
  destruct (digit_not_sign _ Hd2) as [_ [Hd2dot _]].
  assert (Hdot : is_digit (chr 46) = false) by reflexivity.
  assert (Hspan : span is_digit (m0 :: mr ++ chr 46 :: d1 :: d2 :: ms ++ r)
                  = (m0 :: mr, chr 46 :: d1 :: d2 :: ms ++ r)).
  { exact (span_app is_digit (m0 :: mr) (chr 46) _ Hdig Hdot). }
  unfold version_match.
  destruct sign as [|c1 [|c2 [|c3 sr]]]; simpl in Hlen; try lia.
  - apply Forall_inv in Hsg. cbn -[span]. rewrite Hsg, Hm0s.
    rewrite Hspan. cbn. rewrite Hd1, Hd2dot. by destruct (ms ++ r).
  - pose proof (Forall_inv Hsg) as H1. apply Forall_inv_tail, Forall_inv in Hsg.
    cbn -[span]. rewrite H1, Hsg.
    rewrite Hspan. cbn. rewrite Hd1, Hd2dot. by destruct (ms ++ r).
Qed.

Lemma version_match_truncates_minor_witness :
  version_match (lstr ">=3.10") = Some (lstr ">=", lstr "3.1", None).
Proof.
  apply (version_match_truncates_minor (lstr ">=") (lstr "3") (chr 49) (chr 48) [] []);
    try (simpl; lia); repeat constructor; discriminate.
Defined.

Lemma version_clauses_ok (pieces : list (list Ascii.ascii)) (count final : nat) (line : string) :
  (exists s, version_clauses pieces count final line = Ok s)
  <-> Forall (fun piece => version_match piece <> None) pieces.
Proof.
  revert count line. induction pieces as [|pc pieces IH]; intros count line; simpl.
  - split; eauto.
  - destruct (version_match pc) as [[[sign version] patch]|] eqn:Hm.
    + rewrite IH. split; [intros H; constructor; [congruence|done]|].
      intros H. by apply Forall_inv_tail in H.
    + split; [intros [s' H]; discriminate|].
      intros H. apply Forall_inv in H. contradiction.
Qed.

Lemma version_clauses_err (pieces : list (list Ascii.ascii)) (count final : nat) (line : string)
    (e : pyexc) :
  version_clauses pieces count final line = Err e -> e = AttributeError.
Proof.
  revert count line. induction pieces as [|pc pieces IH]; intros count line; simpl;
    [discriminate|].
  destruct (version_match pc) as [[[sign version] patch]|]; [apply IH|].
  intros H. by injection H.
Qed.

(** [python-versions = "*"] adds no marker. Any other string succeeds
    exactly when each of its [", "]-separated constraints matches the
    version regex (so ["~3.7"] or ["^3.7"] make [main] fail); the only
    exception raised is [AttributeError], also for a value that is not a
    string. *)
Theorem version_markers_result (line : string) (pyvers : tval) :
  (pyvers = TStr "*" -> version_markers line pyvers = Ok line)
  /\ (forall pv : string, pyvers = TStr pv -> pv <> "*" ->
        (exists s, version_markers line pyvers = Ok s)
        <-> Forall (fun piece => version_match piece <> None) (split_comma (lstr pv)))
  /\ (forall e, version_markers line pyvers = Err e -> e = AttributeError).
Proof.
  split; [|split].
  - intros ->. reflexivity.
  - intros pv -> Hne. simpl.
    destruct (String.eqb_spec pv "*") as [|_]; [contradiction|].
    apply version_clauses_ok.
  - intros e. destruct pyvers; simpl; try (intros H; by injection H).
    destruct (String.eqb s "*"); [discriminate|]. apply version_clauses_err.
Qed.

Lemma version_markers_result_witness :
  version_markers "x==1.0" (TStr "*") = Ok "x==1.0"
  /\ ~ (exists s, version_markers "x==1.0" (TStr ">=3.6, ~3.7") = Ok s).
Proof.
  destruct (version_markers_result "x==1.0" (TStr "*")) as [Hstar _].
  split; [by apply Hstar|].
  destruct (version_markers_result "x==1.0" (TStr ">=3.6, ~3.7")) as [_ [Hiff _]].
  rewrite (Hiff ">=3.6, ~3.7" eq_refl) by discriminate.
  intros H. apply Forall_inv_tail, Forall_inv in H. apply H. reflexivity.
Defined.

(** The version specifier of a main package [n]: when [pyproject.toml]
    declares [n] as a table with a [git] key, [NotImplementedError]; when
    it is a table with a string [url] and no [git], [" @ " + url] (the
    locked version is not used); when [n] is not declared as a table, or
    the table has neither key, ["==" + version] from the lock file. *)
Theorem dep_line_base_cases (pyproject_deps : table) (dep : tval) (n : string) :
  getitem dep "name" = Ok (TStr n) ->
  (forall kvs, table_get pyproject_deps n = Some (TTable kvs) ->
     table_get kvs "git" <> None -> dep_line_base (TTable pyproject_deps) dep = Err NotImplementedError)
  /\ (forall kvs u, table_get pyproject_deps n = Some (TTable kvs) ->
        table_get kvs "git" = None -> table_get kvs "url" = Some (TStr u) ->
        dep_line_base (TTable pyproject_deps) dep = Ok (" @ " +:+ u))
  /\ (forall v, getitem dep "version" = Ok (TStr v) ->
        (forall kvs, table_get pyproject_deps n = Some (TTable kvs) ->
           table_get kvs "git" = None /\ table_get kvs "url" = None) ->
        dep_line_base (TTable pyproject_deps) dep = Ok ("==" +:+ v)).
Proof.
  intros Hn. unfold dep_line_base. rewrite Hn. simpl. split; [|split].
  - intros kvs Hk Hg. rewrite Hk. simpl.
    destruct (table_get kvs "git"); [reflexivity|contradiction].
  - intros kvs u Hk Hg Hu. rewrite Hk. simpl. rewrite Hg, Hu. reflexivity.
  - intros v Hv Hnot. rewrite Hv.
    destruct (table_get pyproject_deps n) as [[]|] eqn:Hk; try reflexivity.
    destruct (Hnot _ eq_refl) as [Hg Hu]. simpl. rewrite Hg, Hu.
    reflexivity.
Qed.

Lemma dep_line_base_cases_witness :
  dep_line_base (TTable [("discord.py", TTable [("git", TStr "https://x")])])
    (TTable [("name", TStr "discord.py"); ("version", TStr "2.0")]) = Err NotImplementedError.
Proof.
  apply (proj1 (dep_line_base_cases [("discord.py", TTable [("git", TStr "https://x")])]
           (TTable [("name", TStr "discord.py"); ("version", TStr "2.0")]) "discord.py" eq_refl)
           [("git", TStr "https://x")] eq_refl).
  discriminate.
Defined.

Lemma get_hash_py_agrees (json_dumps_sort_keys : pydict -> string)
    (sha256_hexdigest : string -> string) (content : table) :
  match get_hash json_dumps_sort_keys sha256_hexdigest content with
  | Some d => get_hash_py json_dumps_sort_keys sha256_hexdigest content = Ok d
  | None => exists e, get_hash_py json_dumps_sort_keys sha256_hexdigest content = Err e
  end.
Proof.
  unfold get_hash, relevant_content, tool_poetry, get_hash_py, getitem.
  destruct (table_get content "tool") as [tool|]; [|eauto].
  destruct tool as [| | | |tool]; simpl; eauto.
  destruct (table_get tool "poetry") as [poetry|]; simpl; [|eauto].
  destruct poetry; simpl; eauto.
Qed.

(** The hash check of [main]: with validation on and a string
    [content-hash] in the lock file's metadata, a hash that differs from
    the one computed from [pyproject.toml] gives exit code 2 and leaves the
    requirements file as it was; a matching hash makes [main] behave as
    without validation; when no hash can be computed ([tool.poetry]
    missing or not a table) [main] raises. *)
Theorem main_hash_check (json_dumps_sort_keys : pydict -> string)
    (sha256_hexdigest : string -> string) (req_file : option string)
    (pyproject lockfile md : table) (h : string) :
  table_get lockfile "metadata" = Some (TTable md) ->
  table_get md "content-hash" = Some (TStr h) ->
  (check_hash json_dumps_sort_keys sha256_hexdigest h pyproject = Some false ->
     main json_dumps_sort_keys sha256_hexdigest req_file pyproject lockfile true
     = Ok (2%Z, req_file))
  /\ (check_hash json_dumps_sort_keys sha256_hexdigest h pyproject = Some true ->
     main json_dumps_sort_keys sha256_hexdigest req_file pyproject lockfile true
     = main json_dumps_sort_keys sha256_hexdigest req_file pyproject lockfile false)
  /\ (check_hash json_dumps_sort_keys sha256_hexdigest h pyproject = None ->
     exists e, main json_dumps_sort_keys sha256_hexdigest req_file pyproject lockfile true
     = Err e).
Proof.
  intros Hmd Hh. unfold main, check_hash_py. simpl. rewrite Hmd. simpl. rewrite Hh. simpl.
  pose proof (get_hash_py_agrees json_dumps_sort_keys sha256_hexdigest pyproject) as Hg.
  unfold check_hash.
  destruct (get_hash json_dumps_sort_keys sha256_hexdigest pyproject) as [d|].
  - rewrite Hg. simpl. split; [|split].
    + intros Heq. injection Heq as ->. reflexivity.
    + intros Heq. injection Heq as ->. reflexivity.
    + discriminate.
  - destruct Hg as [e ->]. simpl. split; [discriminate|split; [discriminate|eauto]].
Qed.

Lemma main_hash_check_witness :
  main toy_json (fun s => s) None
    [("tool", TTable [("poetry", TTable [("dependencies", TStr "new")])])]
    [("metadata", TTable [("content-hash", TStr "old")])] true
  = Ok (2%Z, None).
Proof.
  apply (proj1 (main_hash_check toy_json (fun s => s) None
    [("tool", TTable [("poetry", TTable [("dependencies", TStr "new")])])]
    [("metadata", TTable [("content-hash", TStr "old")])]
    [("content-hash", TStr "old")] "old" eq_refl eq_refl)).
  reflexivity.
Defined.





Lemma prefixb_spec (p s : list Ascii.ascii) :
  prefixb p s = true -> s = p ++ skipn (length p) s.
Proof.
  revert s. induction p as [|x p IH]; intros [|y s]; simpl; try done.
  intros H. apply andb_true_iff in H as [Hxy Hp].
  apply Ascii.eqb_eq in Hxy as ->. f_equal. by apply IH.
Qed.

Lemma prefixb_app (p s : list Ascii.ascii) : prefixb p (p ++ s) = true.
Proof. induction p as [|x p IH]; simpl; [done|]. by rewrite Ascii.eqb_refl, IH. Qed.

Lemma opt_space_split (l : list Ascii.ascii) :
  exists sp, l = sp ++ opt_space l
             /\ (sp = [] \/ exists c, sp = [c] /\ is_space c = true).
Proof.
  destruct l as [|c r]; simpl; [exists []; auto|].
  destruct (is_space c) eqn:Hc; [exists [c]; eauto|exists []; auto].
Qed.

Lemma opt_space_skip (sp : list Ascii.ascii) (c : Ascii.ascii) (r : list Ascii.ascii) :
  (sp = [] \/ exists c', sp = [c'] /\ is_space c' = true) -> is_space c = false ->
  opt_space (sp ++ c :: r) = c :: r.
Proof.
  intros [-> | [c' [-> Hc']]] Hc; simpl; [by rewrite Hc|by rewrite Hc'].
Qed.

(** [PLATFORM_MARKERS_REGEX.match] accepts exactly the strings that start
    with [sys_platform], an optional whitespace, [==], an optional
    whitespace and a double-quoted non-empty run of word characters; it
    returns that run, and anything after the closing quote is ignored. *)
Theorem platform_match_iff (s w : list Ascii.ascii) :
  platform_match s = Some w <->
  exists sp1 sp2 rest,
    (sp1 = [] \/ exists c, sp1 = [c] /\ is_space c = true)
    /\ (sp2 = [] \/ exists c, sp2 = [c] /\ is_space c = true)
    /\ w <> [] /\ Forall (fun c => is_word c = true) w
    /\ s = lstr "sys_platform" ++ sp1 ++ chr 61 :: chr 61 :: sp2 ++ chr 34 :: w ++ chr 34 :: rest.
Proof.
  unfold platform_match. split.
  - destruct (prefixb (lstr "sys_platform") s) eqn:Hp; [|discriminate].
    apply prefixb_spec in Hp.
    destruct (opt_space_split (skipn (length (lstr "sys_platform")) s)) as [sp1 [E1 Hsp1]].
    destruct (opt_space (skipn (length (lstr "sys_platform")) s)) as [|e1 [|e2 r]] eqn:O1;
      try discriminate.
    destruct (Nat.eqb (code e1) 61) eqn:He1; [|discriminate].
    destruct (Nat.eqb (code e2) 61) eqn:He2; [|discriminate]. simpl.
    apply code_inj in He1; [|lia]. apply code_inj in He2; [|lia]. subst e1 e2.
    destruct (opt_space_split r) as [sp2 [E2 Hsp2]].
    destruct (opt_space r) as [|q r'] eqn:O2; [discriminate|].
    destruct (Nat.eqb (code q) 34) eqn:Hq; [|discriminate].
    apply code_inj in Hq; [|lia]. subst q.
    destruct (span is_word r') as [w0 after] eqn:Hs.
    destruct (span_spec _ _ _ _ Hs) as [E3 [Hw _]].
    destruct w0 as [|c0 w0]; [discriminate|].
    destruct after as [|q' tl]; [discriminate|].
    destruct (Nat.eqb (code q') 34) eqn:Hq'; [|discriminate].
    apply code_inj in Hq'; [|lia]. subst q'.
    intros H. injection H as <-.
    exists sp1, sp2, tl. split; [done|split; [done|split; [done|split; [done|]]]].
    rewrite Hp, E1, E2, E3. simpl. by rewrite <- ?app_assoc.
  - intros (sp1 & sp2 & rest & Hsp1 & Hsp2 & Hne & Hw & ->).
    rewrite prefixb_app, drop_app_length.
    rewrite (opt_space_skip sp1 (chr 61)) by (done || reflexivity).
    simpl. rewrite (opt_space_skip sp2 (chr 34)) by (done || reflexivity).
    simpl. rewrite (span_app is_word w (chr 34) rest Hw eq_refl).
    destruct w; [contradiction|]. reflexivity.
Qed.

Lemma platform_match_iff_witness :
  platform_match (lstr ("sys_platform == " +:+ dq +:+ "win32" +:+ dq)) = Some (lstr "win32").
Proof.
  apply (proj2 (platform_match_iff _ (lstr "win32"))).
  exists [chr 32], [chr 32], []. split; [right; exists (chr 32); auto|].
  split; [right; exists (chr 32); auto|].
  split; [discriminate|]. split; [vm_compute; repeat constructor|]. reflexivity.
Defined.

Lemma key_eqb_sym (a b : tval) : key_eqb a b = key_eqb b a.
Proof.
  destruct a, b; simpl; try reflexivity; try apply String.eqb_sym; try apply Z.eqb_sym.
  repeat match goal with x : bool |- _ => destruct x end; reflexivity.
Qed.

Lemma key_eqb_true (a b c : tval) :
  key_eqb a b = true -> key_eqb a c = key_eqb b c.
Proof.
  destruct a, b; simpl; intros H; try discriminate.
  - apply String.eqb_eq in H. by subst.
  - apply Z.eqb_eq in H. by subst.
  - apply Z.eqb_eq in H. subst. destruct c; simpl; try reflexivity; [apply Z.eqb_sym|].
    repeat match goal with x : bool |- _ => destruct x end; reflexivity.
  - apply Z.eqb_eq in H. subst. destruct c; simpl; try reflexivity; [apply Z.eqb_sym|].
    repeat match goal with x : bool |- _ => destruct x end; reflexivity.
  - repeat match goal with x : bool |- _ => destruct x end; try discriminate; reflexivity.
Qed.

Lemma pd_get_set {A} (d : pdict A) (k : tval) (v : A) (k' : tval) :
  pd_get (pd_set d k v) k' = if key_eqb k k' then Some v else pd_get d k'.
Proof.
  induction d as [|[k0 v0] d IH]; simpl; [done|].
  destruct (key_eqb k0 k) eqn:H0; simpl.
  - rewrite (key_eqb_true _ _ k' H0). by destruct (key_eqb k k').
  - rewrite IH. destruct (key_eqb k k') eqn:Hk; [|done].
    destruct (key_eqb k0 k') eqn:Hk0; [|done].
    rewrite key_eqb_sym, (key_eqb_true _ _ k0 Hk), key_eqb_sym, Hk0 in H0. discriminate.
Qed.

Lemma pd_get_key_eqb {A} (d : pdict A) (k k' : tval) :
  key_eqb k k' = true -> pd_get d k = pd_get d k'.
Proof.
  intros H. induction d as [|[k0 v0] d IH]; simpl; [done|].
  rewrite key_eqb_sym, (key_eqb_true _ _ k0 H), (key_eqb_sym k'), IH. reflexivity.
Qed.

Lemma pd_set_keys {A} (d : pdict A) (k : tval) (v : A) :
  pd_get d k <> None -> (pd_set d k v).*1 = d.*1.
Proof.
  induction d as [|[k0 v0] d IH]; simpl; [done|].
  destruct (key_eqb k0 k); simpl; [done|]. intros H. f_equal. by apply IH.
Qed.

Lemma collect_main_get (pkgs : list tval) (acc d : pdict tval) (k : tval) :
  collect_main pkgs acc = Ok d ->
  pd_get d k =
  match last (filter (fun p => match getitem p "category", getitem p "name" with
                               | Ok cat, Ok nm => key_eqb cat (TStr "main") && key_eqb nm k
                               | _, _ => false
                               end = true) pkgs) with
  | Some p => Some p
  | None => pd_get acc k
  end.
Proof.
  revert acc. induction pkgs as [|p ps IH]; intros acc; simpl.
  - intros H. by injection H as <-.
  - destruct (getitem p "category") as [cat|e] eqn:Hc; simpl; [|discriminate].
    destruct (key_eqb cat (TStr "main")) eqn:Hm.
    + destruct (getitem p "name") as [nm|e] eqn:Hn; simpl; [|discriminate].
      assert (Hk : key_check nm = Ok nm \/ exists e, key_check nm = Err e)
        by (destruct nm; simpl; eauto).
      destruct Hk as [Hk|[e Hk]]; rewrite Hk; simpl; [|discriminate].
      intros H. rewrite (IH _ H), pd_get_set, filter_cons, Hc, Hn, Hm. simpl.
      destruct (key_eqb nm k); simpl; [rewrite last_cons|]; destruct (last _); reflexivity.
    + intros H. rewrite (IH _ H), filter_cons, Hc. simpl.
      destruct (getitem p "name"); simpl; rewrite ?Hm; reflexivity.
Qed.

(** [main_deps] maps a name to the last package of category ["main"]
    with that name in the lock file (a later entry overwrites an earlier
    one), and has no key for a name without such a package; names are
    compared as Python compares dict keys. *)
Theorem collect_main_last_wins (pkgs : list tval) (main_deps : pdict tval) (k : tval) :
  collect_main pkgs [] = Ok main_deps ->
  pd_get main_deps k =
  last (filter (fun p => match getitem p "category", getitem p "name" with
                         | Ok cat, Ok nm => key_eqb cat (TStr "main") && key_eqb nm k
                         | _, _ => false
                         end = true) pkgs).
Proof.
  intros H. rewrite (collect_main_get _ _ _ k H). by destruct (last _).
Qed.

Lemma collect_main_last_wins_witness :
  exists main_deps,
    collect_main [TTable [("name", TStr "a"); ("category", TStr "main"); ("version", TStr "1")];
                  TTable [("name", TStr "b"); ("category", TStr "dev")];
                  TTable [("name", TStr "a"); ("category", TStr "main"); ("version", TStr "2")]] []
      = Ok main_deps
    /\ pd_get main_deps (TStr "a")
       = Some (TTable [("name", TStr "a"); ("category", TStr "main"); ("version", TStr "2")])
    /\ pd_get main_deps (TStr "b") = None.
Proof.
  destruct (collect_main [TTable [("name", TStr "a"); ("category", TStr "main"); ("version", TStr "1")];
                  TTable [("name", TStr "b"); ("category", TStr "dev")];
                  TTable [("name", TStr "a"); ("category", TStr "main"); ("version", TStr "2")]] [])
    as [d|e] eqn:H; [|vm_compute in H; discriminate].
  exists d. split; [reflexivity|].
  split; [rewrite (collect_main_last_wins _ _ (TStr "a") H)
         |rewrite (collect_main_last_wins _ _ (TStr "b") H)]; reflexivity.
Defined.

Lemma string_app_assoc (a b c : string) : (a +:+ b) +:+ c = a +:+ (b +:+ c).
Proof. induction a as [|x a IH]; [reflexivity|]. exact (f_equal (String x) IH). Qed.

Lemma string_app_nil_r (a : string) : a +:+ "" = a.
Proof. induction a as [|x a IH]; [reflexivity|]. exact (f_equal (String x) IH). Qed.

Lemma platform_line_extends (line : string) (platform : list Ascii.ascii) :
  exists suffix, platform_line line platform = line +:+ suffix.
Proof.
  unfold platform_line.
  destruct (negb _); [|destruct (_ || _)]; rewrite ?string_app_assoc; eauto.
Qed.

(** The [sys_platform] pass never adds or removes a requirement: every
    dependency that carries markers must already have a line (else
    [KeyError]), the keys keep their order, and each line is only
    extended at its end. *)
Theorem add_platform_markers_extends (lines : pdict string) (markers_v : pdict tval)
    (lines' : pdict string) :
  add_platform_markers lines markers_v = Ok lines' ->
  lines'.*1 = lines.*1
  /\ Forall (fun kv => pd_get lines kv.1 <> None) markers_v
  /\ forall k l, pd_get lines k = Some l -> exists suffix, pd_get lines' k = Some (l +:+ suffix).
Proof.
  revert lines.
  induction markers_v as [|[k v] ms IH]; intros lines; simpl.
  - intros H. injection H as <-. split; [done|split; [done|]].
    intros k l ->. exists "". by rewrite string_app_nil_r.
  - destruct (pd_get lines k) as [l0|] eqn:Hl0; simpl; [|discriminate].
    destruct (getitem v "markers") as [mv|e]; simpl; [|discriminate].
    destruct (as_str mv) as [m|e]; simpl; [|discriminate].
    set (l1 := match platform_match (lstr m) with
               | Some plat => platform_line l0 plat | None => l0 end).
    assert (Hl1 : exists suffix, l1 = l0 +:+ suffix).
    { subst l1. destruct (platform_match (lstr m)); [apply platform_line_extends|].
      exists "". by rewrite string_app_nil_r. }
    intros H. destruct (IH _ H) as [Hkeys [Hall Hext]].
    rewrite pd_set_keys in Hkeys by congruence.
    split; [done|split].
    + constructor; [simpl; congruence|].
      eapply Forall_impl; [exact Hall|]. intros [k' v'] Hk'. simpl in *.
      rewrite pd_get_set in Hk'. destruct (key_eqb k k') eqn:E; [|done].
      rewrite <- (pd_get_key_eqb _ _ _ E). congruence.
    + intros k' l Hk'.
      destruct (key_eqb k k') eqn:E.
      * rewrite <- (pd_get_key_eqb _ _ _ E), Hl0 in Hk'. injection Hk' as <-.
        destruct Hl1 as [s1 Hs1].
        destruct (Hext k' l1) as [s2 Hs2]; [by rewrite pd_get_set, E|].
        exists (s1 +:+ s2). by rewrite Hs2, Hs1, string_app_assoc.
      * apply Hext. by rewrite pd_get_set, E.
Qed.

Lemma add_platform_markers_extends_witness :
  exists lines',
    add_platform_markers [(TStr "colorama", "==0.4.4")]
      [(TStr "colorama", TTable [("markers", TStr ("sys_platform == " +:+ dq +:+ "win32" +:+ dq))])]
    = Ok lines'
    /\ lines'.*1 = [TStr "colorama"].
Proof.
  destruct (add_platform_markers [(TStr "colorama", "==0.4.4")]
      [(TStr "colorama", TTable [("markers", TStr ("sys_platform == " +:+ dq +:+ "win32" +:+ dq))])])
    as [l|e] eqn:H; [|vm_compute in H; discriminate].
  exists l. split; [reflexivity|].
  exact (proj1 (add_platform_markers_extends _ _ _ H)).
Defined.

Lemma split_comma_length_le (n : nat) (s : list Ascii.ascii) :
  length s <= n -> length (split_comma s) = S (count_comma s).
Proof.
  revert s. induction n as [|n IH]; intros s Hs.
  - destruct s; [reflexivity|simpl in Hs; lia].
  - destruct s as [|c [|d r]]; [reflexivity|reflexivity|]. simpl in Hs.
    assert (Es : split_comma (c :: d :: r)
                 = if Nat.eqb (code c) 44 && Nat.eqb (code d) 32 then [] :: split_comma r
                   else match split_comma (d :: r) with
                        | [] => [[c]]
                        | w :: ws => (c :: w) :: ws
                        end) by reflexivity.
    assert (Ec : count_comma (c :: d :: r)
                 = if Nat.eqb (code c) 44 && Nat.eqb (code d) 32 then S (count_comma r)
                   else count_comma (d :: r)) by reflexivity.
    rewrite Es, Ec. destruct (Nat.eqb (code c) 44 && Nat.eqb (code d) 32).
    + simpl. f_equal. apply IH. lia.
    + pose proof (IH (d :: r) ltac:(simpl; lia)) as H.
      destruct (split_comma (d :: r)) as [|w ws]; [discriminate|]. exact H.
Qed.

(** [pyvers.split(", ")] has exactly [pyvers.count(", ") + 1] pieces, so
    [final_version_index] is the index of the last clause: [main] puts
    ["and "] after every clause but the last. *)
Theorem split_comma_count (s : list Ascii.ascii) :
  length (split_comma s) = S (count_comma s).
Proof. exact (split_comma_length_le (length s) s (le_n _)). Qed.

Lemma str_ltb_irrefl (a : list Ascii.ascii) : str_ltb a a = false.
Proof.
  induction a as [|x a IH]; simpl; [done|].
  by rewrite Nat.ltb_irrefl, Nat.eqb_refl.
Qed.

Lemma str_ltb_trans (a b c : list Ascii.ascii) :
  str_ltb a b = true -> str_ltb b c = true -> str_ltb a c = true.
Proof.
  revert b c. induction a as [|x a IH]; intros [|y b] [|z c]; simpl; try done.
  destruct (Nat.ltb_spec (code x) (code y)); destruct (Nat.eqb_spec (code x) (code y));
    destruct (Nat.ltb_spec (code y) (code z)); destruct (Nat.eqb_spec (code y) (code z));
    destruct (Nat.ltb_spec (code x) (code z)); destruct (Nat.eqb_spec (code x) (code z));
    try lia; try done; eauto.
Qed.

Lemma str_ltb_total (a b : list Ascii.ascii) :
  a = b \/ str_ltb a b = true \/ str_ltb b a = true.
Proof.
  revert b. induction a as [|x a IH]; intros [|y b]; simpl; auto.
  destruct (Nat.ltb_spec (code x) (code y)); [auto|].
  destruct (Nat.ltb_spec (code y) (code x)); [auto|].
  assert (Hxy : x = y).
  { assert (E : code x = code y) by lia. unfold code in E.
    apply (f_equal Ascii.ascii_of_nat) in E. by rewrite !Ascii.ascii_nat_embedding in E. }
  subst y. rewrite Nat.eqb_refl.
  destruct (IH b) as [->|[Hl|Hl]]; auto.
Qed.

Lemma lstr_inj (a b : string) : lstr a = lstr b -> a = b.
Proof.
  intros H. apply (f_equal String.string_of_list_ascii) in H.
  unfold lstr in H. by rewrite !String.string_of_list_ascii_of_string in H.
Qed.

(** The order [sorted] keeps between two strings: [a] comes no later than
    [b] when [b < a] fails. *)
Lemma str_le_trans : Transitive (fun a b : string => str_ltb (lstr b) (lstr a) = false).
Proof.
  intros a b c Hab Hbc.
  destruct (str_ltb (lstr c) (lstr a)) eqn:Hca; [|done]. exfalso.
  destruct (str_ltb_total (lstr a) (lstr b)) as [Eab|[Hab'|Hba]]; [..|congruence].
  - rewrite <- Eab in Hbc. congruence.
  - assert (Hac : str_ltb (lstr a) (lstr c) = true).
    { destruct (str_ltb_total (lstr b) (lstr c)) as [Ebc|[Hbc'|Hcb]];
        [by rewrite <- Ebc|by apply (str_ltb_trans _ (lstr b))|congruence]. }
    pose proof (str_ltb_trans _ _ _ Hac Hca) as Hx. by rewrite str_ltb_irrefl in Hx.
Qed.

Lemma str_le_antisymm :
  AntiSymm (=) (fun a b : string => str_ltb (lstr b) (lstr a) = false).
Proof.
  intros a b Hab Hba. apply lstr_inj.
  destruct (str_ltb_total (lstr a) (lstr b)) as [E|[H|H]]; congruence.
Qed.

Lemma insert_sorted_perm (x : string) (l : list string) : insert_sorted x l ≡ₚ x :: l.
Proof.
  induction l as [|y l IH]; simpl; [done|].
  destruct (str_ltb (lstr x) (lstr y)); [done|].
  rewrite IH. apply perm_swap.
Qed.

Lemma insert_sorted_sorted (x : string) (l : list string) :
  Sorted (fun a b : string => str_ltb (lstr b) (lstr a) = false) l ->
  Sorted (fun a b : string => str_ltb (lstr b) (lstr a) = false) (insert_sorted x l).
Proof.
  induction 1 as [|y l Hl IH Hhd]; simpl; [repeat constructor|].
  destruct (str_ltb (lstr x) (lstr y)) eqn:Hxy.
  - constructor; [by constructor|]. constructor.
    destruct (str_ltb (lstr y) (lstr x)) eqn:Hyx; [|done].
    pose proof (str_ltb_trans _ _ _ Hxy Hyx) as Hx. by rewrite str_ltb_irrefl in Hx.
  - constructor; [done|].
    destruct l as [|z l]; simpl; [by constructor|].
    inversion Hhd; subst.
    destruct (str_ltb (lstr x) (lstr z)); by constructor.
Qed.

Lemma sort_strings_fold (l acc : list string) :
  Sorted (fun a b : string => str_ltb (lstr b) (lstr a) = false) acc ->
  Sorted (fun a b : string => str_ltb (lstr b) (lstr a) = false)
    (fold_left (fun acc x => insert_sorted x acc) l acc)
  /\ fold_left (fun acc x => insert_sorted x acc) l acc ≡ₚ l ++ acc.
Proof.
  revert acc. induction l as [|x l IH]; intros acc Hacc; simpl; [done|].
  destruct (IH (insert_sorted x acc) (insert_sorted_sorted x acc Hacc)) as [Hs Hp].
  split; [done|]. rewrite Hp, insert_sorted_perm. by rewrite Permutation_middle.
Qed.

Lemma sort_strings_perm (l1 l2 : list string) :
  l1 ≡ₚ l2 -> sort_strings l1 = sort_strings l2.
Proof.
  intros Hp. unfold sort_strings.
  destruct (sort_strings_fold l1 [] (Sorted_nil _)) as [Hs1 Hp1].
  destruct (sort_strings_fold l2 [] (Sorted_nil _)) as [Hs2 Hp2].
  apply (@Sorted_unique _ _ str_le_trans str_le_antisymm); [done|done|].
  rewrite Hp1, Hp2, !app_nil_r. exact Hp.
Qed.

Lemma line_texts_eq (lines : pdict string) :
  line_texts lines =
  if forallb (fun kv : tval * string => match kv.1 with TStr _ => true | _ => false end) lines
  then Ok (map (fun kv : tval * string =>
                  match kv.1 with TStr ks => ks +:+ rstrip kv.2 | _ => "" end) lines)
  else Err TypeError.
Proof.
  induction lines as [|[k v] ls IH]; simpl; [done|].
  destruct k; simpl; try reflexivity. rewrite IH.
  by destruct (forallb _ ls).
Qed.

(** The text [main] writes does not depend on the order of the lines it
    collected: two line tables that are permutations of each other render
    to the same result, since the lines are sorted before they are
    joined. *)
Theorem render_order_independent (lines1 lines2 : pdict string) :
  lines1 ≡ₚ lines2 -> render lines1 = render lines2.
Proof.
  intros Hp. unfold render. rewrite !line_texts_eq.
  assert (Hf : forall f : tval * string -> bool, forallb f lines1 = forallb f lines2).
  { intros f. induction Hp; simpl; try congruence.
    by destruct (f x), (f y). }
  rewrite Hf. destruct (forallb _ lines2); [|done]. simpl.
  by rewrite (sort_strings_perm _ _ (Permutation_map _ Hp)).
Qed.

Lemma render_order_independent_witness :
  render [(TStr "b", "==2"); (TStr "a", "==1 ")] = render [(TStr "a", "==1 "); (TStr "b", "==2")].
Proof. apply render_order_independent. apply perm_swap. Defined.

End RequirementsFacts.

Module MetaFacts.

Import Meta Stdlib.Strings.Ascii.

Local Open Scope nat_scope.

Lemma lower_char_letter (c : Ascii.ascii) (l : Ascii.ascii) :
  l ∈ ["p"; "o"; "n"; "g"]%char ->
  lower_char c = l <-> c = l \/ c = Ascii.ascii_of_nat (Ascii.nat_of_ascii l - 32).
Proof.
  rewrite !elem_of_cons, elem_of_nil.
  intros Hl. destruct c as [[] [] [] [] [] [] [] []];
    destruct Hl as [->|[->|[->|[->|[]]]]]; vm_compute; intuition discriminate.
Qed.

(** The [ping] command answers with the title [Ping!] exactly when it was
    invoked as [pong] in some mix of cases ([pong], [PONG], [Pong], ...),
    and with [Pong!] otherwise, including every spelling of [ping]. *)
Theorem ping_title_cases (invoked_with : string) :
  (ping_title invoked_with = "Ping!"
   <-> exists a b c d, invoked_with = String a (String b (String c (String d EmptyString)))
       /\ (a = "p" \/ a = "P")%char /\ (b = "o" \/ b = "O")%char
       /\ (c = "n" \/ c = "N")%char /\ (d = "g" \/ d = "G")%char)
  /\ (ping_title invoked_with = "Ping!" \/ ping_title invoked_with = "Pong!").
Proof.
  unfold ping_title.
  assert (Hl : lower invoked_with = "pong"
               <-> exists a b c d, invoked_with = String a (String b (String c (String d EmptyString)))
                   /\ (a = "p" \/ a = "P")%char /\ (b = "o" \/ b = "O")%char
                   /\ (c = "n" \/ c = "N")%char /\ (d = "g" \/ d = "G")%char).
  { split.
    - destruct invoked_with as [|a [|b [|c [|d [|e r]]]]]; simpl; try discriminate.
      intros H. injection H as Ha Hb Hc Hd.
      apply lower_char_letter in Ha; [|set_solver]. apply lower_char_letter in Hb; [|set_solver].
      apply lower_char_letter in Hc; [|set_solver]. apply lower_char_letter in Hd; [|set_solver].
      exists a, b, c, d. split; [reflexivity|]. vm_compute in Ha, Hb, Hc, Hd. tauto.
    - intros (a & b & c & d & -> & Ha & Hb & Hc & Hd). simpl.
      rewrite (proj2 (lower_char_letter a "p" ltac:(set_solver)) ltac:(vm_compute; tauto)).
      rewrite (proj2 (lower_char_letter b "o" ltac:(set_solver)) ltac:(vm_compute; tauto)).
      rewrite (proj2 (lower_char_letter c "n" ltac:(set_solver)) ltac:(vm_compute; tauto)).
      rewrite (proj2 (lower_char_letter d "g" ltac:(set_solver)) ltac:(vm_compute; tauto)).
      reflexivity. }
  rewrite <- Hl.
  destruct (String.eqb_spec (lower invoked_with) "pong") as [H|H]; simpl.
  - split; [tauto|left; reflexivity].
  - split; [split; [discriminate|contradiction]|right; reflexivity].
Qed.

End MetaFacts.

Module CogsModeFacts.

Import Cogs.

(** Composing [BotModes] with [calc_mode]: for every mode and every
    metadata object, the mode's bit is set in [calc_mode] exactly when the
    object's attribute of the same name is true (a missing attribute
    counts as false). *)
Theorem mode_bit_iff_flag (o : pyobj) (n : string) (v : Z) :
  In (n, v) BotModes -> (Z.land v (calc_mode o) <> 0 <-> getattr o n false = true).
Proof.
  change BotModes with [("production", 1); ("develop", 2); ("plugin_dev", 4)].
  unfold calc_mode, py_or.
  intros [H|[H|[H|[]]]]; injection H as <- <-;
    destruct (getattr o "production" false), (getattr o "develop" false),
      (getattr o "plugin_dev" false); split; intros Hx;
      first [ reflexivity | exfalso; apply Hx; reflexivity | discriminate
            | intros Hz; vm_compute in Hz; discriminate ].
Qed.

Lemma mode_bit_iff_flag_witness :
  Z.land 2 (calc_mode [("develop", true); ("plugin_dev", true)]) <> 0.
Proof.
  apply (proj2 (mode_bit_iff_flag [("develop", true); ("plugin_dev", true)] "develop" 2
                  ltac:(simpl; auto))).
  reflexivity.
Defined.

End CogsModeFacts.
